(** * caliscope: the stereotriangulated table, per bundle and batched

    A shallow embedding of
    [caliscope/calibration/capture_volume/helper_functions/get_stereotriangulated_table.py]:
    the two assemblers [get_stereotriangulated_table_original] (one pass per
    synchronization index) and [get_stereotriangulated_table] (one pass over a
    single virtual bundle, identifiers encoded and decoded).

    Conventions of the embedding.
    - A pandas table is the list of its rows.  An integer column is an
      [int64] column: its values are integers ([Z]) of the 64-bit range, and
      the arithmetic that numpy does on them wraps around silently, which is
      written out with [wrap64].  A real column holds values of an abstract
      type [Real] on which no arithmetic is done here.
    - A multiplier of 0 (a largest point identifier of -1) is outside the
      embedding of lines 239-240: pandas then fills the two columns with
      [inf] and [NaN]; the statements about decoding exclude it.
    - A boolean-mask selection [df[df[c] == v]] is a [filter].
    - The effects of a run (reading the input, constructing a SyncPacket,
      calling the correspondence builder and the triangulator, writing the
      output file) are recorded in a trace of events; an exception ends the
      run.  Calls of [logger.info] are left out.
    - The classes of [caliscope.packets], [caliscope.triangulate] and
      [caliscope.cameras.camera_array] are imported by the source file but are
      not part of the sources at hand: their data is modelled from the
      specification, and the assemblers are first defined over an arbitrary
      correspondence builder, triangulator and [to_table]. *)

From Stdlib Require Import ZArith Lia.
From stdpp Require Import base option list sorting strings gmap fin_maps.

Local Open Scope Z_scope.

(** ** numpy and dict helpers *)

(** Insertion of [x] into a strictly increasing list, dropping a repeat. *)
Fixpoint insert_unique (x : Z) (l : list Z) : list Z :=
  match l with
  | [] => [x]
  | y :: l' =>
      if (x <? y)%Z then x :: l
      else if (x =? y)%Z then l
      else y :: insert_unique x l'
  end.

(** [np.unique]: the sorted distinct values of an array. *)
Definition np_unique (l : list Z) : list Z := foldr insert_unique [] l.

(** [np.intersect1d]: the sorted distinct values present in both arrays. *)
Definition np_intersect1d (a b : list Z) : list Z :=
  np_unique (filter (λ x, x ∈ b) a).

(** A Python dict whose iteration order matters: the list of its items. *)
Fixpoint dict_get {K V : Type} `{EqDecision K} (d : list (K * V)) (k : K) : option V :=
  match d with
  | [] => None
  | (k', v) :: d' => if decide (k' = k) then Some v else dict_get d' k
  end.

(** [itertools.combinations(l, 2)]: the pairs of positions [i < j]. *)
Fixpoint combinations2 {A : Type} (l : list A) : list (A * A) :=
  match l with
  | [] => []
  | a :: l' => ((λ b, (a, b)) <$> l') ++ combinations2 l'
  end.

(** [pathlib.Path] as the list of its components. *)
Definition Path : Type := list string.

Definition parent (p : Path) : Path := removelast p.

(** ** 64-bit integers *)

Definition int64_min : Z := -9223372036854775808.
Definition int64_max : Z := 9223372036854775807.

(** The values an [int64] column or scalar can hold. *)
Definition is_int64 (z : Z) : Prop := int64_min ≤ z ≤ int64_max.

(** What an [int64] operation stores when its mathematical result is [z]:
    the representative of [z] modulo 2^64 in the 64-bit range. *)
Definition wrap64 (z : Z) : Z :=
  (z - int64_min) mod 18446744073709551616 + int64_min.

(** ** The identifier encoding of the batched mode (lines 175-177, 239-240) *)

(** [point_data['point_id'].max()]; pandas answers NaN on an empty column. *)
Definition max_point_id_of (point_ids : list Z) : option Z :=
  match point_ids with
  | [] => None
  | p :: ps => Some (foldr Z.max p ps)
  end.

(** [sync_index * point_id_multiplier + point_id], on [int64] columns: the
    product wraps, and so does the sum. *)
Definition encode (point_id_multiplier sync_index point_id : Z) : Z :=
  wrap64 (wrap64 (sync_index * point_id_multiplier) + point_id).

(** [(point_id // point_id_multiplier, point_id % point_id_multiplier)];
    numpy's floor division and modulo are [Z.div] and [Z.modulo], and the one
    quotient that leaves the 64-bit range (the least [int64] by -1) is stored
    wrapped. *)
Definition decode (point_id_multiplier combined : Z) : Z * Z :=
  (wrap64 (combined / point_id_multiplier), combined mod point_id_multiplier).

(** ** Exceptions and the trace of a run *)

Inductive Exn : Type :=
  | KeyError (key : string).

Section Pipeline.

Context {Real : Type}.

(** ** Data model *)

Definition Loc2 : Type := Real * Real.
Definition Loc3 : Type := Real * Real * Real.

(** One row of the input table (the columns read by the assemblers). *)
Record Row : Type := mkRow {
  sync_index : Z;
  port : Z;
  point_id : Z;
  frame_time : Real;
  frame_index : Z;
  img_loc_x : Real;
  img_loc_y : Real;
  obj_loc_x : Real;
  obj_loc_y : Real
}.

(** Modelled from the spec: [PointPacket] (Point Set), the parallel arrays of
    one camera at one instant; the class is not among the sources. *)
Record PointPacket : Type := mkPointPacket {
  pp_point_id : list Z;
  pp_img_loc : list Loc2;
  pp_obj_loc : list Loc2
}.

(** Modelled from the spec: [FramePacket] (Frame Snapshot); the raw image
    [frame] is always [None] here. *)
Record FramePacket : Type := mkFramePacket {
  fp_port : Z;
  fp_frame_index : Z;
  fp_frame_time : Real;
  fp_frame : option unit;
  fp_points : option PointPacket
}.

(** Modelled from the spec: [SyncPacket] (Sync Bundle), a synchronization
    index and the dict from port to FramePacket-or-None. *)
Record SyncPacket : Type := mkSyncPacket {
  sp_sync_index : Z;
  sp_frame_packets : gmap Z (option FramePacket)
}.

(** Modelled from the spec: one matched point of a Camera Pair
    Correspondence, with the 3D coordinate the triangulator writes into it. *)
Record MatchedPoint : Type := mkMatchedPoint {
  mp_point_id : Z;
  mp_img_loc_a : Loc2;
  mp_img_loc_b : Loc2;
  mp_xyz : option Loc3
}.

(** Modelled from the spec: [StereoPointsPacket] (Camera Pair
    Correspondence). *)
Record StereoPointsPacket : Type := mkStereoPointsPacket {
  spp_sync_index : Z;
  spp_port_a : Z;
  spp_port_b : Z;
  spp_points : list MatchedPoint
}.

(** Modelled from the spec: [SynchedStereoPointsPacket], the dict from camera
    pair to StereoPointsPacket-or-None of one bundle, in insertion order; its
    [pairs] are the keys. *)
Record SynchedStereoPointsPacket : Type := mkSynchedStereoPointsPacket {
  ssp_sync_index : Z;
  stereo_points_packets : list ((Z * Z) * option StereoPointsPacket)
}.

Definition pairs (ssp : SynchedStereoPointsPacket) : list (Z * Z) :=
  (stereo_points_packets ssp).*1.

(** Modelled from the spec: [CameraArray], the dict [port_index] (its keys
    are the ports, in insertion order) and, for a camera pair, the stereo
    geometry as the per-point solver it determines, or [None] when the pair
    has no known geometric relationship. *)
Record CameraArray : Type := mkCameraArray {
  port_index : list (Z * Z);
  stereo_geometry : Z → Z → option (Loc2 → Loc2 → Loc3)
}.

(** Modelled from the spec: one row of the Output Table. *)
Record OutRow : Type := mkOutRow {
  out_sync_index : Z;
  out_port_a : Z;
  out_port_b : Z;
  out_point_id : Z;
  out_img_loc_a : Loc2;
  out_img_loc_b : Loc2;
  out_xyz : Loc3
}.

(** A [pd.DataFrame] of output rows.  [pd.DataFrame(None)] has no column at
    all; [NaNFrame] is the frame whose [sync_index] and [point_id] columns are
    all NaN (a decoding against a NaN multiplier). *)
Inductive DataFrame : Type :=
  | EmptyFrame
  | Frame (rows : list OutRow)
  | NaNFrame (rows : list OutRow).

Definition pd_DataFrame (table : option (list OutRow)) : DataFrame :=
  match table with
  | None => EmptyFrame
  | Some rows => Frame rows
  end.

Inductive Event : Type :=
  | EvReadCsv (path : Path)
  | EvSyncPacket (sync_packet : SyncPacket)
  | EvGetSynchedPairedPoints (sync_packet : SyncPacket)
  | EvTriangulateSynchedPoints (synched_stereo_points : SynchedStereoPointsPacket)
  | EvToCsv (path : Path) (table : DataFrame).

(** A computation: the events so far, and an exception or a value. *)
Definition M (A : Type) : Type := list Event * (Exn + A).

Definition ret {A : Type} (a : A) : M A := ([], inr a).

Definition bind {A B : Type} (m : M A) (k : A → M B) : M B :=
  match m with
  | (t, inl e) => (t, inl e)
  | (t, inr a) => let '(t', r) := k a in (t ++ t', r)
  end.

Definition emit (e : Event) : M unit := ([e], inr tt).

Definition raise {A : Type} (e : Exn) : M A := ([], inl e).

(** A [for] loop threading the variables it assigns. *)
Fixpoint for_each {A S : Type} (l : list A) (s : S) (body : S → A → M S) : M S :=
  match l with
  | [] => ret s
  | a :: l' => bind (body s a) (λ s', for_each l' s' body)
  end.

Notation "x <- m ;; k" := (bind m (λ x, k))
  (at level 100, m at next level, right associativity, only parsing).
Notation "m ;;; k" := (bind m (λ _, k))
  (at level 100, right associativity, only parsing).

(** ** The assemblers, over any builder, triangulator and [to_table] *)

Section Assembler.

(** [StereoPointsBuilder(ports).get_synched_paired_points(sync_packet)] *)
Variable get_synched_paired_points : list Z → SyncPacket → SynchedStereoPointsPacket.

(** [ArrayStereoTriangulator(camera_array).triangulate_synched_points(p)]:
    the packet is annotated in place, which is rendered by returning it. *)
Variable triangulate_synched_points :
  CameraArray → SynchedStereoPointsPacket → SynchedStereoPointsPacket.

(** [StereoPointsPacket.to_table()]: the dict of columns, read row by row. *)
Variable to_table : StereoPointsPacket → list OutRow.

(** [ports = [key for key in camera_array.port_index.keys()]] *)
Definition ports_of (camera_array : CameraArray) : list Z :=
  (port_index camera_array).*1.

(** [np.vstack([x, y]).T] *)
Definition img_loc (r : Row) : Loc2 := (img_loc_x r, img_loc_y r).
Definition obj_loc (r : Row) : Loc2 := (obj_loc_x r, obj_loc_y r).

Definition point_packet_of (port_data : list Row) : PointPacket :=
  {| pp_point_id := point_id <$> port_data;
     pp_img_loc := img_loc <$> port_data;
     pp_obj_loc := obj_loc <$> port_data |}.

(** Lines 90-119: the frame packet of [port] in the rows of one
    synchronization index, [None] when the port has no row there. *)
Definition bundle_frame_packet (port_points : list Row) (p : Z) : option FramePacket :=
  let port_data := filter (λ r, port r = p) port_points in
  match port_data with
  | r0 :: _ =>
      Some {| fp_port := p;
              fp_frame_index := frame_index r0;
              fp_frame_time := frame_time r0;
              fp_frame := None;
              fp_points := Some (point_packet_of port_data) |}
  | [] => None
  end.

(** Lines 188-213: the frame packet of [port] in the whole (remapped) table. *)
Definition virtual_frame_packet (point_data : list Row) (p : Z) : option FramePacket :=
  let port_data := filter (λ r, port r = p) point_data in
  match port_data with
  | r0 :: _ =>
      Some {| fp_port := p;
              fp_frame_index := 0;
              fp_frame_time := frame_time r0;
              fp_frame := None;
              fp_points := Some (point_packet_of port_data) |}
  | [] => None
  end.

(** [frame_packets = {}; for port in ports: frame_packets[port] = ...] *)
Definition frame_packets_for (make : Z → option FramePacket) (ports : list Z)
  : gmap Z (option FramePacket) :=
  foldl (λ frame_packets p, <[p := make p]> frame_packets) ∅ ports.

(** Lines 51-56: [sync_groups[sync_index] = point_data[mask]]. *)
Definition sync_groups_of (point_data : list Row) (sync_indices : list Z)
  : gmap Z (list Row) :=
  foldl (λ sync_groups s, <[s := filter (λ r, sync_index r = s) point_data]> sync_groups)
        ∅ sync_indices.

(** Lines 129-137 and 225-233 (the same loop in both functions): the rows of
    every pair whose packet is not [None] are appended to the accumulator,
    which starts as [None]. *)
Definition collect_pair (synched_stereo_points : SynchedStereoPointsPacket)
    (stereotriangulated_table : option (list OutRow)) (pair : Z * Z)
  : M (option (list OutRow)) :=
  match dict_get (stereo_points_packets synched_stereo_points) pair with
  | None => raise (KeyError "pair")
  | Some None => ret stereotriangulated_table
  | Some (Some triangulated_pair) =>
      match stereotriangulated_table with
      | None => ret (Some (to_table triangulated_pair))
      | Some table => ret (Some (table ++ to_table triangulated_pair))
      end
  end.

Definition collect (synched_stereo_points : SynchedStereoPointsPacket)
    (stereotriangulated_table : option (list OutRow)) : M (option (list OutRow)) :=
  for_each (pairs synched_stereo_points) stereotriangulated_table
           (collect_pair synched_stereo_points).

Definition output_path (point_data_path : Path) : Path :=
  parent point_data_path ++ ["stereotriangulated_points.csv"%string].

(** Lines 69-137: the body of the loop over the synchronization indices. *)
Definition process_sync_index (camera_array : CameraArray)
    (sync_groups : gmap Z (list Row))
    (stereotriangulated_table : option (list OutRow)) (s : Z)
  : M (option (list OutRow)) :=
  let ports := ports_of camera_array in
  match sync_groups !! s with
  | None => raise (KeyError "sync_index")
  | Some port_points =>
      let frame_packets := frame_packets_for (bundle_frame_packet port_points) ports in
      let sync_packet := {| sp_sync_index := s; sp_frame_packets := frame_packets |} in
      emit (EvSyncPacket sync_packet) ;;;
      emit (EvGetSynchedPairedPoints sync_packet) ;;;
      let synched_stereo_points := get_synched_paired_points ports sync_packet in
      emit (EvTriangulateSynchedPoints synched_stereo_points) ;;;
      let synched_stereo_points :=
        triangulate_synched_points camera_array synched_stereo_points in
      collect synched_stereo_points stereotriangulated_table
  end.

(** [get_stereotriangulated_table_original(camera_array, point_data_path)];
    [point_data] is what [pd.read_csv(point_data_path)] returns. *)
Definition get_stereotriangulated_table_original (camera_array : CameraArray)
    (point_data_path : Path) (point_data : list Row) : M DataFrame :=
  emit (EvReadCsv point_data_path) ;;;
  let xy_sync_indices := sync_index <$> point_data in
  let sync_indices := np_unique xy_sync_indices in
  let sync_groups := sync_groups_of point_data sync_indices in
  stereotriangulated_table <-
    for_each sync_indices None (process_sync_index camera_array sync_groups) ;;
  let stereotriangulated_table := pd_DataFrame stereotriangulated_table in
  emit (EvToCsv (output_path point_data_path) stereotriangulated_table) ;;;
  ret stereotriangulated_table.

(** Line 177: the [point_id] column becomes the combined identifier, and
    line 180: the [sync_index] column becomes 0.  On an empty table the
    multiplier is NaN and there is no row to rewrite. *)
Definition remap_row (point_id_multiplier : Z) (r : Row) : Row :=
  {| sync_index := 0;
     port := port r;
     point_id := encode point_id_multiplier (sync_index r) (point_id r);
     frame_time := frame_time r;
     frame_index := frame_index r;
     img_loc_x := img_loc_x r;
     img_loc_y := img_loc_y r;
     obj_loc_x := obj_loc_x r;
     obj_loc_y := obj_loc_y r |}.

(** Lines 175-176: [max_point_id + 1], an [int64] scalar addition that
    wraps; NaN ([None]) on an empty table. *)
Definition point_id_multiplier_of (point_data : list Row) : option Z :=
  (λ max_point_id, wrap64 (max_point_id + 1))
    <$> max_point_id_of (point_id <$> point_data).

(** The arithmetic of lines 176-177 stays within the 64-bit range on
    [point_data]: neither [max_point_id + 1] nor a combined identifier
    [sync_index * (max_point_id + 1) + point_id] exceeds it. *)
Definition no_overflow (point_data : list Row) : Prop :=
  match max_point_id_of (point_id <$> point_data) with
  | Some max_point_id =>
      max_point_id < int64_max
      ∧ Forall (λ r, is_int64 (sync_index r * (max_point_id + 1) + point_id r))
               point_data
  | None => True
  end.

(** A row whose point identifier is below the multiplier and whose combined
    identifier is stored as it is. *)
Definition encodable (point_id_multiplier : Z) (r : Row) : Prop :=
  0 ≤ point_id r < point_id_multiplier
  ∧ is_int64 (sync_index r * point_id_multiplier + point_id r).

Definition remap (point_data : list Row) : list Row :=
  match point_id_multiplier_of point_data with
  | Some point_id_multiplier => remap_row point_id_multiplier <$> point_data
  | None => point_data
  end.

(** Lines 239-245: the combined identifier of a row is decomposed into the
    original [sync_index] and [point_id]. *)
Definition restore_row (point_id_multiplier : Z) (r : OutRow) : OutRow :=
  let '(original_sync_index, original_point_id) :=
    decode point_id_multiplier (out_point_id r) in
  {| out_sync_index := original_sync_index;
     out_port_a := out_port_a r;
     out_port_b := out_port_b r;
     out_point_id := original_point_id;
     out_img_loc_a := out_img_loc_a r;
     out_img_loc_b := out_img_loc_b r;
     out_xyz := out_xyz r |}.

(** [stereotriangulated_table['point_id']] raises [KeyError] on a frame that
    has no such column. *)
Definition restore_original (point_id_multiplier : option Z) (table : DataFrame)
  : M DataFrame :=
  match table with
  | EmptyFrame => raise (KeyError "point_id")
  | Frame rows =>
      match point_id_multiplier with
      | Some m => ret (Frame (restore_row m <$> rows))
      | None => ret (NaNFrame rows)
      end
  | NaNFrame rows => ret (NaNFrame rows)
  end.

(** [get_stereotriangulated_table(camera_array, point_data_path)];
    [point_data] is what [pd.read_csv(point_data_path)] returns. *)
Definition get_stereotriangulated_table (camera_array : CameraArray)
    (point_data_path : Path) (point_data : list Row) : M DataFrame :=
  emit (EvReadCsv point_data_path) ;;;
  let point_id_multiplier := point_id_multiplier_of point_data in
  let point_data := remap point_data in
  let ports := ports_of camera_array in
  let frame_packets := frame_packets_for (virtual_frame_packet point_data) ports in
  let sync_packet := {| sp_sync_index := 0; sp_frame_packets := frame_packets |} in
  emit (EvSyncPacket sync_packet) ;;;
  emit (EvGetSynchedPairedPoints sync_packet) ;;;
  let synched_stereo_points := get_synched_paired_points ports sync_packet in
  emit (EvTriangulateSynchedPoints synched_stereo_points) ;;;
  let synched_stereo_points :=
    triangulate_synched_points camera_array synched_stereo_points in
  stereotriangulated_table <- collect synched_stereo_points None ;;
  let stereotriangulated_table := pd_DataFrame stereotriangulated_table in
  stereotriangulated_table <- restore_original point_id_multiplier stereotriangulated_table ;;
  emit (EvToCsv (output_path point_data_path) stereotriangulated_table) ;;;
  ret stereotriangulated_table.

(** The two modes of the Table Assembler. *)
Inductive Mode : Type := PerBundle | Batched.

Definition assemble (mode : Mode) : CameraArray → Path → list Row → M DataFrame :=
  match mode with
  | PerBundle => get_stereotriangulated_table_original
  | Batched => get_stereotriangulated_table
  end.

(** *** What a run constructs, named for the statements below *)

(** The SyncPacket of the synchronization index [s] (line 122). *)
Definition bundle_sync_packet (camera_array : CameraArray) (point_data : list Row)
    (s : Z) : SyncPacket :=
  {| sp_sync_index := s;
     sp_frame_packets :=
       frame_packets_for
         (bundle_frame_packet (filter (λ r, sync_index r = s) point_data))
         (ports_of camera_array) |}.

(** The triangulated correspondences of the synchronization index [s]
    (lines 125-127). *)
Definition bundle_stereo_points (camera_array : CameraArray) (point_data : list Row)
    (s : Z) : SynchedStereoPointsPacket :=
  triangulate_synched_points camera_array
    (get_synched_paired_points (ports_of camera_array)
       (bundle_sync_packet camera_array point_data s)).

(** The single SyncPacket of the batched mode (line 216). *)
Definition virtual_sync_packet (camera_array : CameraArray) (point_data : list Row)
  : SyncPacket :=
  {| sp_sync_index := 0;
     sp_frame_packets :=
       frame_packets_for (virtual_frame_packet (remap point_data))
                         (ports_of camera_array) |}.

(** The triangulated correspondences of the batched mode (lines 220-221). *)
Definition virtual_stereo_points (camera_array : CameraArray) (point_data : list Row)
  : SynchedStereoPointsPacket :=
  triangulate_synched_points camera_array
    (get_synched_paired_points (ports_of camera_array)
       (virtual_sync_packet camera_array point_data)).

(** The packets the collecting loop meets, pair after pair. *)
Definition packets_met (synched_stereo_points : SynchedStereoPointsPacket)
  : list (option StereoPointsPacket) :=
  (λ pair, default None (dict_get (stereo_points_packets synched_stereo_points) pair))
    <$> pairs synched_stereo_points.

(** Every pair of the packet is null. *)
Definition all_null (synched_stereo_points : SynchedStereoPointsPacket) : Prop :=
  ∀ pair, pair ∈ pairs synched_stereo_points →
    dict_get (stereo_points_packets synched_stereo_points) pair = Some None.

Definition all_nullb (synched_stereo_points : SynchedStereoPointsPacket) : bool :=
  forallb (λ pair,
             match dict_get (stereo_points_packets synched_stereo_points) pair with
             | Some None => true
             | _ => false
             end)
          (pairs synched_stereo_points).

(** The accumulator after one more packet, and after a list of them. *)
Definition append_packet (table : option (list OutRow))
    (packet : option StereoPointsPacket) : option (list OutRow) :=
  match packet with
  | None => table
  | Some triangulated_pair =>
      Some (default [] table ++ to_table triangulated_pair)
  end.

Definition append_packets (table : option (list OutRow))
    (packets : list (option StereoPointsPacket)) : option (list OutRow) :=
  foldl append_packet table packets.

(** The accumulator of the per-bundle mode after its loop, and of the batched
    mode after its single pass. *)
Definition bundle_table (camera_array : CameraArray) (point_data : list Row)
  : option (list OutRow) :=
  foldl (λ table s,
           append_packets table
             (packets_met (bundle_stereo_points camera_array point_data s)))
        None (np_unique (sync_index <$> point_data)).

Definition virtual_table (camera_array : CameraArray) (point_data : list Row)
  : option (list OutRow) :=
  append_packets None (packets_met (virtual_stereo_points camera_array point_data)).

(** The events of one synchronization index, and of the single pass. *)
Definition bundle_events (camera_array : CameraArray) (point_data : list Row)
    (s : Z) : list Event :=
  let sync_packet := bundle_sync_packet camera_array point_data s in
  [EvSyncPacket sync_packet;
   EvGetSynchedPairedPoints sync_packet;
   EvTriangulateSynchedPoints
     (get_synched_paired_points (ports_of camera_array) sync_packet)].

Definition virtual_events (camera_array : CameraArray) (point_data : list Row)
  : list Event :=
  let sync_packet := virtual_sync_packet camera_array point_data in
  [EvSyncPacket sync_packet;
   EvGetSynchedPairedPoints sync_packet;
   EvTriangulateSynchedPoints
     (get_synched_paired_points (ports_of camera_array) sync_packet)].

End Assembler.

(** *** Reading a trace *)

Definition is_sync_packet (e : Event) : bool :=
  match e with EvSyncPacket _ => true | _ => false end.

Definition is_builder_call (e : Event) : bool :=
  match e with EvGetSynchedPairedPoints _ => true | _ => false end.

Definition is_triangulator_call (e : Event) : bool :=
  match e with EvTriangulateSynchedPoints _ => true | _ => false end.

Definition is_to_csv (e : Event) : bool :=
  match e with EvToCsv _ _ => true | _ => false end.

Definition count (f : Event → bool) (trace : list Event) : nat :=
  length (List.filter f trace).

(** The synchronization index of the SyncPacket an event constructs. *)
Definition sync_of_event (e : Event) : option Z :=
  match e with
  | EvSyncPacket sync_packet => Some (sp_sync_index sync_packet)
  | _ => None
  end.

(** The detections a SyncPacket holds for a port: the image and object
    locations of its point packet, in the order of the arrays. *)
Definition detections_of (sync_packet : SyncPacket) (p : Z) : list (Loc2 * Loc2) :=
  match sp_frame_packets sync_packet !! p with
  | Some (Some frame) =>
      match fp_points frame with
      | Some points => zip (pp_img_loc points) (pp_obj_loc points)
      | None => []
      end
  | _ => []
  end.

(** The rows of a frame. *)
Definition frame_rows (table : DataFrame) : list OutRow :=
  match table with
  | EmptyFrame => []
  | Frame rows => rows
  | NaNFrame rows => rows
  end.

(** ** The correspondence builder and the triangulator *)

(** Modelled from the spec: the image location a Point Set records for the
    identifier [i] (identifiers are unique within a Point Set; the first
    occurrence is taken). *)
Definition img_loc_of (points : PointPacket) (i : Z) : option Loc2 :=
  dict_get (zip (pp_point_id points) (pp_img_loc points)) i.

(** Modelled from the spec: a common identifier with the two cameras' image
    locations gathered by identifier, not yet triangulated. *)
Definition matched_point (points_a points_b : PointPacket) (i : Z) : option MatchedPoint :=
  match img_loc_of points_a i, img_loc_of points_b i with
  | Some loc_a, Some loc_b =>
      Some {| mp_point_id := i; mp_img_loc_a := loc_a; mp_img_loc_b := loc_b;
              mp_xyz := None |}
  | _, _ => None
  end.

(** Modelled from the spec: the Camera Pair Correspondence of one pair in one
    Sync Bundle (section 4.1): the intersection of the two Point Sets'
    identifiers, in identifier order; null when either side is absent or the
    intersection is empty.  [StereoPointsBuilder] is not among the sources. *)
Definition get_stereo_points_packet (sync_packet : SyncPacket) (pair : Z * Z)
  : option StereoPointsPacket :=
  let '(port_a, port_b) := pair in
  match sp_frame_packets sync_packet !! port_a, sp_frame_packets sync_packet !! port_b with
  | Some (Some frame_a), Some (Some frame_b) =>
      match fp_points frame_a, fp_points frame_b with
      | Some points_a, Some points_b =>
          match np_intersect1d (pp_point_id points_a) (pp_point_id points_b) with
          | [] => None
          | common_ids =>
              Some {| spp_sync_index := sp_sync_index sync_packet;
                      spp_port_a := port_a;
                      spp_port_b := port_b;
                      spp_points := omap (matched_point points_a points_b) common_ids |}
          end
      | _, _ => None
      end
  | _, _ => None
  end.

(** Modelled from the spec: [StereoPointsBuilder(ports).get_synched_paired_points]:
    a correspondence, possibly null, for every pair of the ports in their
    fixed order (the ports are the keys of a dict, hence distinct, so that no
    pair is inserted twice). *)
Definition StereoPointsBuilder_get_synched_paired_points (ports : list Z)
    (sync_packet : SyncPacket) : SynchedStereoPointsPacket :=
  {| ssp_sync_index := sp_sync_index sync_packet;
     stereo_points_packets :=
       (λ pair, (pair, get_stereo_points_packet sync_packet pair)) <$> combinations2 ports |}.

(** Modelled from the spec: the triangulation of one correspondence (section
    4.2): every matched point gets the coordinate the pair's geometry solves
    from its two image locations, independently of the other points; a pair
    without geometry is left without coordinates. *)
Definition triangulate_pair (camera_array : CameraArray) (pair : Z * Z)
    (packet : StereoPointsPacket) : StereoPointsPacket :=
  match stereo_geometry camera_array pair.1 pair.2 with
  | Some solve =>
      {| spp_sync_index := spp_sync_index packet;
         spp_port_a := spp_port_a packet;
         spp_port_b := spp_port_b packet;
         spp_points :=
           (λ m, {| mp_point_id := mp_point_id m;
                    mp_img_loc_a := mp_img_loc_a m;
                    mp_img_loc_b := mp_img_loc_b m;
                    mp_xyz := Some (solve (mp_img_loc_a m) (mp_img_loc_b m)) |})
             <$> spp_points packet |}
  | None => packet
  end.

(** Modelled from the spec: [ArrayStereoTriangulator(camera_array)
    .triangulate_synched_points]; [ArrayStereoTriangulator] is not among the
    sources. *)
Definition ArrayStereoTriangulator_triangulate_synched_points
    (camera_array : CameraArray) (synched_stereo_points : SynchedStereoPointsPacket)
  : SynchedStereoPointsPacket :=
  {| ssp_sync_index := ssp_sync_index synched_stereo_points;
     stereo_points_packets :=
       (λ item : (Z * Z) * option StereoPointsPacket,
          (item.1, triangulate_pair camera_array item.1 <$> item.2))
         <$> stereo_points_packets synched_stereo_points |}.

(** Modelled from the spec: [StereoPointsPacket.to_table()]: one row per
    triangulated point of the correspondence (a Triangulated Point: point
    identifier, synchronization index, camera pair, 3D coordinate). *)
Definition StereoPointsPacket_to_table (packet : StereoPointsPacket) : list OutRow :=
  omap (λ m, (λ xyz, {| out_sync_index := spp_sync_index packet;
                        out_port_a := spp_port_a packet;
                        out_port_b := spp_port_b packet;
                        out_point_id := mp_point_id m;
                        out_img_loc_a := mp_img_loc_a m;
                        out_img_loc_b := mp_img_loc_b m;
                        out_xyz := xyz |}) <$> mp_xyz m)
       (spp_points packet).

(** The rows one pair of one bundle contributes to the table. *)
Definition pair_rows (camera_array : CameraArray) (sync_packet : SyncPacket)
    (pair : Z * Z) : list OutRow :=
  from_option StereoPointsPacket_to_table []
    (triangulate_pair camera_array pair <$> get_stereo_points_packet sync_packet pair).

(** The first row of [rows] that carries the point identifier [i]. *)
Definition first_with_id (i : Z) (rows : list Row) : option Row :=
  head (filter (λ r, point_id r = i) rows).

(** The same rows, read off the rows of the input table that two ports have
    in one bundle. *)
Definition matched_row (s a b : Z) (solve : Loc2 → Loc2 → Loc3)
    (rows_a rows_b : list Row) (i : Z) : option OutRow :=
  match first_with_id i rows_a, first_with_id i rows_b with
  | Some ra, Some rb =>
      Some {| out_sync_index := s;
              out_port_a := a;
              out_port_b := b;
              out_point_id := i;
              out_img_loc_a := img_loc ra;
              out_img_loc_b := img_loc rb;
              out_xyz := solve (img_loc ra) (img_loc rb) |}
  | _, _ => None
  end.

Definition matched_rows (camera_array : CameraArray) (s a b : Z)
    (rows_a rows_b : list Row) : list OutRow :=
  match stereo_geometry camera_array a b with
  | Some solve =>
      omap (matched_row s a b solve rows_a rows_b)
           (np_intersect1d (point_id <$> rows_a) (point_id <$> rows_b))
  | None => []
  end.

(** The Point Set that the assemblers make of the rows of one port. *)
Definition points_of_rows (rows : list Row) : option PointPacket :=
  match rows with
  | [] => None
  | _ :: _ => Some (point_packet_of rows)
  end.

(** The two assemblers with the builder and the triangulator of the spec. *)
Definition per_bundle_mode : CameraArray → Path → list Row → M DataFrame :=
  get_stereotriangulated_table_original
    StereoPointsBuilder_get_synched_paired_points
    ArrayStereoTriangulator_triangulate_synched_points
    StereoPointsPacket_to_table.

Definition batched_mode : CameraArray → Path → list Row → M DataFrame :=
  get_stereotriangulated_table
    StereoPointsBuilder_get_synched_paired_points
    ArrayStereoTriangulator_triangulate_synched_points
    StereoPointsPacket_to_table.

End Pipeline.

(** * [caliscope/cameras/live_stream.py] *)

Module LiveStream.

Section Subscribers.

(** A subscriber is any hashable object; two are the same when [==] says so. *)
Context {Subscriber : Type} `{EqDecision Subscriber}.

(** [list.remove(x)]: the list without its first element equal to [x];
    [None] stands for the [ValueError] raised when there is none. *)
Fixpoint list_remove (x : Subscriber) (l : list Subscriber) : option (list Subscriber) :=
  match l with
  | [] => None
  | y :: l' => if decide (y = x) then Some l' else (y ::.) <$> list_remove x l'
  end.

(** [LiveStream.subscribe] (lines 53-64), on [self.subscribers]: a second
    subscription is only logged. *)
Definition subscribe (subscribers : list Subscriber) (subscriber_id : Subscriber)
  : list Subscriber :=
  if decide (subscriber_id ∈ subscribers) then subscribers
  else subscribers ++ [subscriber_id].

(** [LiveStream.unsubscribe] (lines 66-82), on [self.subscribers]: an
    unknown subscriber is only logged, and so is an exception of [remove]. *)
Definition unsubscribe (subscribers : list Subscriber) (subscriber_id : Subscriber)
  : list Subscriber :=
  if decide (subscriber_id ∈ subscribers) then
    match list_remove subscriber_id subscribers with
    | Some remaining => remaining
    | None => subscribers
    end
  else subscribers.

(** The calls a stream receives, and its subscribers after them;
    [__init__] starts from the empty list (line 28). *)
Inductive Call : Type :=
  | Subscribe (subscriber_id : Subscriber)
  | Unsubscribe (subscriber_id : Subscriber).

Definition call (subscribers : list Subscriber) (c : Call) : list Subscriber :=
  match c with
  | Subscribe subscriber_id => subscribe subscribers subscriber_id
  | Unsubscribe subscriber_id => unsubscribe subscribers subscriber_id
  end.

Definition after_calls (calls : list Call) : list Subscriber :=
  foldl call [] calls.

(** Whether the last call that names [x] is a subscription. *)
Definition last_call_subscribes (x : Subscriber) (calls : list Call) : bool :=
  foldl (λ (subscribed : bool) c,
           match c with
           | Subscribe y => if decide (y = x) then true else subscribed
           | Unsubscribe y => if decide (y = x) then false else subscribed
           end)
        false calls.

End Subscribers.

(** [fps_divisions] of [set_nearest_fps] (line 247). *)
Definition fps_divisions : list Z := [5; 10; 15; 20; 30].

(** [LiveStream.set_nearest_fps] (lines 241-253), for an integer rate: the
    loop threads [smallest_min] and [nearest_fps]. *)
Definition set_nearest_fps (actual_fps : Z) : option Z :=
  (foldl (λ '(smallest_min, nearest_fps) devision,
            if decide (devision < actual_fps ∧ actual_fps - devision < smallest_min)
            then (actual_fps - devision, Some devision)
            else (smallest_min, nearest_fps))
         (1000, None) fps_divisions).2.

End LiveStream.

(** * [caliscope/calibration/charuco.py] *)

Module Charuco.

(** The prefix of a key of [lines]: ["x_"] or ["y_"]. *)
Inductive Axis : Type := AxisX | AxisY.

Global Instance Axis_eq_dec : EqDecision Axis.
Proof. solve_decision. Defined.

(** [lines[key].append(v)] on a [defaultdict(list)], as the list of its
    items in insertion order. *)
Fixpoint defaultdict_append {K V : Type} `{EqDecision K}
    (d : list (K * list V)) (k : K) (v : V) : list (K * list V) :=
  match d with
  | [] => [(k, [v])]
  | (k', vs) :: d' =>
      if decide (k' = k) then (k', vs ++ [v]) :: d'
      else (k', vs) :: defaultdict_append d' k v
  end.

Section ConnectedPoints.

(** A coordinate of a chessboard corner; two are the same when [==] says
    so.  The corners are the rows of [board.getChessboardCorners()], of which
    the function reads the columns 0 and 1. *)
Context {Coord : Type} `{EqDecision Coord}.

(** [zip(range(0, len(corners)), corners_x, corners_y)] *)
Definition enumerate_corners (corners : list (Coord * Coord))
  : list (nat * (Coord * Coord)) :=
  zip (seq 0 (length corners)) corners.

(** Lines 254-263: for every line position of one axis, every corner on it
    is appended to the list of that line. *)
Definition add_lines (axis : Axis) (coord_of : Coord * Coord → Coord)
    (line_set : list Coord) (corners : list (Coord * Coord))
    (lines : list ((Axis * Coord) * list nat)) : list ((Axis * Coord) * list nat) :=
  foldl (λ lines line,
           foldl (λ lines (item : nat * (Coord * Coord)),
                    if decide (coord_of item.2 = line)
                    then defaultdict_append lines (axis, line) item.1
                    else lines)
                 lines (enumerate_corners corners))
        lines line_set.

(** [Charuco.get_connected_points] (lines 236-271), for the corners of the
    board and the orders in which the two sets [x_set] and [y_set] are
    iterated. *)
Definition get_connected_points_with (x_set y_set : list Coord)
    (corners : list (Coord * Coord)) : gset (nat * nat) :=
  let lines := add_lines AxisX fst x_set corners [] in
  let lines := add_lines AxisY snd y_set corners lines in
  foldl (λ connected_corners (item : (Axis * Coord) * list nat),
           foldl (λ connected_corners i, {[i]} ∪ connected_corners)
                 connected_corners (combinations2 item.2))
        ∅ lines.

(** [x_set = set(corners_x)], [y_set = set(corners_y)], iterated in the order
    of first occurrence. *)
Definition get_connected_points (corners : list (Coord * Coord)) : gset (nat * nat) :=
  get_connected_points_with (remove_dups (corners.*1)) (remove_dups (corners.*2)) corners.

(** The corners of one line, in the order of the loop, and the item of
    [lines] they make (a line without corner makes none). *)
Definition on_line (coord_of : Coord * Coord → Coord) (line : Coord)
    (items : list (nat * (Coord * Coord))) : list nat :=
  (filter (λ item, coord_of item.2 = line) items).*1.

Definition line_item (axis : Axis) (coord_of : Coord * Coord → Coord)
    (corners : list (Coord * Coord)) (line : Coord)
  : option ((Axis * Coord) * list nat) :=
  match on_line coord_of line (enumerate_corners corners) with
  | [] => None
  | ids => Some ((axis, line), ids)
  end.

End ConnectedPoints.

End Charuco.

(** * [caliscope/gui/camera_management/record_single_camera.py] *)

Module RecordSingleCamera.

Inductive NextRecordingActions : Type :=
  | SELECT_CAMERA
  | START_RECORDING
  | COUNTDOWN
  | STOP_RECORDING
  | SAVING.

(** The text of [start_stop_button]: the value of an action, or
    [f"{COUNTDOWN.value} ({n}s)"]. *)
Inductive ButtonText : Type :=
  | ActionText (action : NextRecordingActions)
  | CountdownText (seconds : Z).

(** The part of the widget that the start/stop button and the countdown
    timer read and write. *)
Record Widget : Type := mkWidget {
  current_action : NextRecordingActions;
  current_countdown_value : Z;
  countdown_duration_spin : Z;
  countdown_timer_active : bool;
  start_stop_button_text : ButtonText;
  start_stop_button_enabled : bool;
  countdown_beeps : nat
}.

(** What a handler leaves: the widget, or the widget with which it goes on
    into [_start_actual_recording] or [_stop_actual_recording]. *)
Inductive Outcome : Type :=
  | Done (w : Widget)
  | StartActualRecording (w : Widget)
  | StopActualRecording (w : Widget).

(** [update_button_state] (lines 676-687) *)
Definition update_button_state (w : Widget) : Widget :=
  let text := ActionText (current_action w) in
  let '(text, can_interact_with_button) :=
    match current_action w with
    | SAVING => (text, false)
    | SELECT_CAMERA => (text, false)
    | COUNTDOWN => (CountdownText (current_countdown_value w), true)
    | _ => (text, true)
    end in
  {| current_action := current_action w;
     current_countdown_value := current_countdown_value w;
     countdown_duration_spin := countdown_duration_spin w;
     countdown_timer_active := countdown_timer_active w;
     start_stop_button_text := text;
     start_stop_button_enabled := can_interact_with_button;
     countdown_beeps := countdown_beeps w |}.

(** [toggle_start_stop] (lines 492-517) *)
Definition toggle_start_stop (w : Widget) : Outcome :=
  match current_action w with
  | START_RECORDING =>
      let countdown_s := countdown_duration_spin w in
      if decide (0 < countdown_s) then
        let w := update_button_state
                   {| current_action := COUNTDOWN;
                      current_countdown_value := countdown_s;
                      countdown_duration_spin := countdown_duration_spin w;
                      countdown_timer_active := countdown_timer_active w;
                      start_stop_button_text := start_stop_button_text w;
                      start_stop_button_enabled := start_stop_button_enabled w;
                      countdown_beeps := countdown_beeps w |} in
        Done {| current_action := current_action w;
                current_countdown_value := current_countdown_value w;
                countdown_duration_spin := countdown_duration_spin w;
                countdown_timer_active := true;
                start_stop_button_text := CountdownText (current_countdown_value w);
                start_stop_button_enabled := start_stop_button_enabled w;
                countdown_beeps := countdown_beeps w |}
      else StartActualRecording w
  | COUNTDOWN =>
      Done (update_button_state
              {| current_action := START_RECORDING;
                 current_countdown_value := current_countdown_value w;
                 countdown_duration_spin := countdown_duration_spin w;
                 countdown_timer_active := false;
                 start_stop_button_text := start_stop_button_text w;
                 start_stop_button_enabled := start_stop_button_enabled w;
                 countdown_beeps := countdown_beeps w |})
  | STOP_RECORDING => StopActualRecording w
  | SAVING => Done w
  | SELECT_CAMERA => Done w
  end.

(** [update_countdown_display] (lines 519-528), the slot of the countdown
    timer. *)
Definition update_countdown_display (w : Widget) : Outcome :=
  let value := current_countdown_value w - 1 in
  if decide (0 < value) then
    Done {| current_action := current_action w;
            current_countdown_value := value;
            countdown_duration_spin := countdown_duration_spin w;
            countdown_timer_active := countdown_timer_active w;
            start_stop_button_text := CountdownText value;
            start_stop_button_enabled := start_stop_button_enabled w;
            countdown_beeps :=
              if decide (value ≤ 3) then S (countdown_beeps w) else countdown_beeps w |}
  else
    StartActualRecording
      {| current_action := current_action w;
         current_countdown_value := value;
         countdown_duration_spin := countdown_duration_spin w;
         countdown_timer_active := false;
         start_stop_button_text := start_stop_button_text w;
         start_stop_button_enabled := start_stop_button_enabled w;
         countdown_beeps := countdown_beeps w |}.

(** [n] timeouts of the countdown timer: the slot runs at each of them as
    long as the timer is active and no recording has been started. *)
Fixpoint timeouts (n : nat) (w : Widget) : Outcome :=
  match n with
  | O => Done w
  | S n' =>
      if countdown_timer_active w then
        match update_countdown_display w with
        | Done w' => timeouts n' w'
        | outcome => outcome
        end
      else Done w
  end.

End RecordSingleCamera.

(** * Concrete runs

    Real columns are instantiated with integers; the solver of a camera pair
    is a stand-in that keeps the two image locations apart. *)

Definition detection (s p i : Z) : @Row Z :=
  {| sync_index := s; port := p; point_id := i;
     frame_time := 100 + s; frame_index := 10 + s;
     img_loc_x := 10 * p + i; img_loc_y := s;
     obj_loc_x := i; obj_loc_y := 0 |}.

Definition example_camera_array : @CameraArray Z :=
  {| port_index := [(0, 0); (1, 1); (2, 2)];
     stereo_geometry := λ _ _, Some (λ loc_a loc_b, (loc_a.1, loc_b.1, loc_a.2)) |}.

Definition example_path : Path := ["recording"; "xy_CHARUCO.csv"]%string.

(** Two synchronization indices, three cameras: cameras 0 and 1 share point 7
    at index 0 and point 2 at index 1; camera 2 shares nothing. *)
Definition table_shared : list (@Row Z) :=
  [detection 0 0 7; detection 0 1 7; detection 0 2 3;
   detection 1 0 2; detection 1 1 2].

(** No two cameras share a point at any synchronization index. *)
Definition table_disjoint : list (@Row Z) :=
  [detection 0 0 1; detection 1 1 2].

(** A negative point identifier: (0, 1) and (1, -1) get the same combined
    identifier under the multiplier 2. *)
Definition table_negative : list (@Row Z) :=
  [detection 0 0 1; detection 1 1 (-1)].

(** Synchronization indices 0 and 2^62 with the largest point identifier 3:
    the multiplier is 4, and the 64-bit product of 2^62 and 4 wraps to 0, so
    that (0, 0) and (2^62, 0) get the same combined identifier. *)
Definition table_overflow : list (@Row Z) :=
  [detection 0 0 0; detection 0 1 0; detection 0 2 3;
   detection 4611686018427387904 0 0; detection 4611686018427387904 1 0].

(** A single synchronization index, 0, whose frames have the index 0. *)
Definition table_single_frame : list (@Row Z) :=
  [ {| sync_index := 0; port := 0; point_id := 4;
       frame_time := 100; frame_index := 0;
       img_loc_x := 4; img_loc_y := 0; obj_loc_x := 4; obj_loc_y := 0 |};
    {| sync_index := 0; port := 1; point_id := 4;
       frame_time := 100; frame_index := 0;
       img_loc_x := 14; img_loc_y := 0; obj_loc_x := 4; obj_loc_y := 0 |} ].

(** The corners of a board with two rows and two columns of inner corners,
    and its two sets of line positions in some order. *)
Definition example_corners : list (Z * Z) := [(0, 0); (40, 0); (0, 40); (40, 40)].
Definition example_x_set : list Z := [40; 0].
Definition example_y_set : list Z := [0; 40].

(** The widget with a camera selected and a countdown of five seconds. *)
Definition example_widget : RecordSingleCamera.Widget :=
  {| RecordSingleCamera.current_action := RecordSingleCamera.START_RECORDING;
     RecordSingleCamera.current_countdown_value := 0;
     RecordSingleCamera.countdown_duration_spin := 5;
     RecordSingleCamera.countdown_timer_active := false;
     RecordSingleCamera.start_stop_button_text :=
       RecordSingleCamera.ActionText RecordSingleCamera.START_RECORDING;
     RecordSingleCamera.start_stop_button_enabled := true;
     RecordSingleCamera.countdown_beeps := 0 |}.

(** * Properties *)

Section Properties.

(** The statements are over one type of real values. *)
Context {Real : Type}.

Local Abbreviation Row := (@Row Real).
Local Abbreviation PointPacket := (@PointPacket Real).
Local Abbreviation FramePacket := (@FramePacket Real).
Local Abbreviation SyncPacket := (@SyncPacket Real).
Local Abbreviation MatchedPoint := (@MatchedPoint Real).
Local Abbreviation StereoPointsPacket := (@StereoPointsPacket Real).
Local Abbreviation SynchedStereoPointsPacket := (@SynchedStereoPointsPacket Real).
Local Abbreviation CameraArray := (@CameraArray Real).
Local Abbreviation OutRow := (@OutRow Real).
Local Abbreviation DataFrame := (@DataFrame Real).
Local Abbreviation Event := (@Event Real).
Local Abbreviation M := (@M Real).
Local Abbreviation Loc2 := (@Loc2 Real).
Local Abbreviation Loc3 := (@Loc3 Real).


(** ** Arrays and dicts *)

Lemma elem_of_insert_unique (x z : Z) (l : list Z) :
  z ∈ insert_unique x l ↔ z = x ∨ z ∈ l.
Proof.
  induction l as [|y l IH]; simpl.
  - rewrite list_elem_of_singleton, elem_of_nil. tauto.
  - destruct (Z.ltb_spec x y); [by rewrite elem_of_cons|].
    destruct (Z.eqb_spec x y) as [->|?].
    + rewrite elem_of_cons. tauto.
    + rewrite !elem_of_cons, IH. tauto.
Qed.

Lemma elem_of_np_unique (z : Z) (l : list Z) : z ∈ np_unique l ↔ z ∈ l.
Proof.
  unfold np_unique. induction l as [|y l IH]; simpl; [done|].
  rewrite elem_of_insert_unique, IH, elem_of_cons. tauto.
Qed.

Lemma insert_unique_sorted (x : Z) (l : list Z) :
  StronglySorted Z.lt l → StronglySorted Z.lt (insert_unique x l).
Proof.
  induction 1 as [|y l Hs IH Hy]; simpl.
  - repeat constructor.
  - destruct (Z.ltb_spec x y).
    + constructor; [by constructor|]. constructor; [done|].
      eapply Forall_impl; [exact Hy|]. intros; simpl in *; lia.
    + destruct (Z.eqb_spec x y); [by constructor|].
      constructor; [done|]. apply Forall_forall. intros z Hz.
      apply elem_of_insert_unique in Hz as [->|Hz]; [lia|].
      by eapply Forall_forall in Hy.
Qed.

Lemma np_unique_sorted (l : list Z) : StronglySorted Z.lt (np_unique l).
Proof.
  unfold np_unique. induction l; simpl; [constructor|].
  by apply insert_unique_sorted.
Qed.

Lemma sorted_lt_NoDup (l : list Z) : StronglySorted Z.lt l → NoDup l.
Proof.
  induction 1 as [|y l Hs IH Hy]; constructor; [|done].
  intros Hin. eapply Forall_forall in Hy; [|done]. lia.
Qed.

Lemma NoDup_np_unique (l : list Z) : NoDup (np_unique l).
Proof. apply sorted_lt_NoDup, np_unique_sorted. Qed.

Lemma elem_of_np_intersect1d (z : Z) (a b : list Z) :
  z ∈ np_intersect1d a b ↔ z ∈ a ∧ z ∈ b.
Proof.
  unfold np_intersect1d. rewrite elem_of_np_unique, list_elem_of_filter. tauto.
Qed.

Lemma dict_get_keys {K V : Type} `{EqDecision K} (d : list (K * V)) (k : K) :
  k ∈ d.*1 → is_Some (dict_get d k).
Proof.
  induction d as [|[k' v] d IH]; simpl; [by intros ?%elem_of_nil|].
  intros Hk. destruct (decide (k' = k)); [by eexists|].
  apply IH. apply elem_of_cons in Hk as [?|?]; [congruence|done].
Qed.

Lemma dict_get_tabulate {K V : Type} `{EqDecision K} (f : K → V) (ks : list K) (k : K) :
  k ∈ ks → dict_get ((λ k, (k, f k)) <$> ks) k = Some (f k).
Proof.
  induction ks as [|k' ks IH]; simpl; [by intros ?%elem_of_nil|].
  intros Hk. destruct (decide (k' = k)); [by subst|].
  apply IH. apply elem_of_cons in Hk as [?|?]; [congruence|done].
Qed.

Lemma lookup_foldl_insert {V : Type} (f : Z → V) (ks : list Z) (m : gmap Z V) (k : Z) :
  foldl (λ m k, <[k := f k]> m) m ks !! k
  = if decide (k ∈ ks) then Some (f k) else m !! k.
Proof.
  revert m. induction ks as [|k' ks IH]; intros m.
  - destruct (decide (k ∈ [])) as [Hin|_]; [by apply elem_of_nil in Hin|done].
  - cbn [foldl]. rewrite IH.
    destruct (decide (k ∈ ks)) as [Hin|Hin], (decide (k ∈ k' :: ks)) as [Hin'|Hin'].
    + done.
    + destruct Hin'. by right.
    + apply elem_of_cons in Hin' as [->|?]; [|done]. apply lookup_insert_eq.
    + apply lookup_insert_ne. intros ->. destruct Hin'. by left.
Qed.

Lemma elem_of_combinations2 {A : Type} (l : list A) (a b : A) :
  (a, b) ∈ combinations2 l → a ∈ l ∧ b ∈ l.
Proof.
  induction l as [|x l IH]; simpl; [by intros ?%elem_of_nil|].
  rewrite elem_of_app, list_elem_of_fmap. intros [(y & [= -> ->] & Hy)|Hin].
  - split; [by left|by right].
  - destruct (IH Hin). split; by right.
Qed.

(** ** The encoding *)

Lemma max_point_id_of_ge (l : list Z) (m p : Z) :
  max_point_id_of l = Some m → p ∈ l → p ≤ m.
Proof.
  destruct l as [|q l]; [done|]. simpl. intros [= <-].
  revert q. induction l as [|x l IH]; intros q Hp; simpl.
  - apply list_elem_of_singleton in Hp. lia.
  - apply elem_of_cons in Hp as [->|Hp].
    + assert (q ≤ foldr Z.max q l) by (apply IH; by left). lia.
    + apply elem_of_cons in Hp as [->|Hp]; [lia|].
      assert (p ≤ foldr Z.max q l) by (apply IH; by right). lia.
Qed.

Lemma wrap64_id (z : Z) : is_int64 z → wrap64 z = z.
Proof.
  unfold is_int64, wrap64, int64_min, int64_max. intros Hz.
  rewrite Z.mod_small; lia.
Qed.

Lemma wrap64_range (z : Z) : is_int64 (wrap64 z).
Proof.
  unfold is_int64, wrap64, int64_min, int64_max.
  pose proof (Z.mod_pos_bound (z - -9223372036854775808) 18446744073709551616).
  lia.
Qed.

Lemma wrap64_add_l (a b : Z) : wrap64 (wrap64 a + b) = wrap64 (a + b).
Proof.
  unfold wrap64, int64_min. f_equal.
  replace ((a - -9223372036854775808) mod 18446744073709551616
           + -9223372036854775808 + b - -9223372036854775808)
    with ((a - -9223372036854775808) mod 18446744073709551616 + b) by lia.
  rewrite Zplus_mod_idemp_l. f_equal. lia.
Qed.

Lemma encode_wrap (m s p : Z) : encode m s p = wrap64 (s * m + p).
Proof. unfold encode. apply wrap64_add_l. Qed.

Lemma encode_exact (m s p : Z) : is_int64 (s * m + p) → encode m s p = s * m + p.
Proof. intros Hc. rewrite encode_wrap. by apply wrap64_id. Qed.

Lemma quotient_is_int64 (m c : Z) : 0 < m → is_int64 c → is_int64 (c / m).
Proof.
  unfold is_int64, int64_min, int64_max. intros Hm Hc.
  pose proof (Z.mul_div_le c m Hm).
  pose proof (Z.mod_pos_bound c m Hm).
  pose proof (Z.div_mod c m ltac:(lia)).
  destruct (Z.le_gt_cases 0 (c / m)); nia.
Qed.

Lemma decode_encode (m s p : Z) :
  0 ≤ p < m → is_int64 (s * m + p) → decode m (encode m s p) = (s, p).
Proof.
  intros Hp Hc. rewrite encode_exact by done. unfold decode.
  assert ((s * m + p) / m = s) as Hq by (symmetry; apply Z.div_unique with p; lia).
  f_equal.
  - rewrite wrap64_id; [exact Hq|]. apply quotient_is_int64; [lia|done].
  - symmetry. apply Z.mod_unique with s; lia.
Qed.

Lemma encode_inj (m s1 p1 s2 p2 : Z) :
  0 ≤ p1 < m → 0 ≤ p2 < m →
  is_int64 (s1 * m + p1) → is_int64 (s2 * m + p2) →
  encode m s1 p1 = encode m s2 p2 → s1 = s2 ∧ p1 = p2.
Proof.
  intros H1 H2 Hc1 Hc2 Heq.
  assert (decode m (encode m s1 p1) = decode m (encode m s2 p2)) as Hd by congruence.
  rewrite !decode_encode in Hd by done. by injection Hd.
Qed.

Lemma multiplier_exact (point_data : list Row) (max_point_id : Z) :
  max_point_id_of (point_id <$> point_data) = Some max_point_id →
  int64_min - 1 ≤ max_point_id < int64_max →
  point_id_multiplier_of point_data = Some (max_point_id + 1).
Proof.
  intros Hmax Hrange. unfold point_id_multiplier_of. rewrite Hmax. cbn.
  f_equal. apply wrap64_id. unfold is_int64. lia.
Qed.

Lemma max_point_id_of_elem (l : list Z) (m : Z) :
  max_point_id_of l = Some m → m ∈ l.
Proof.
  destruct l as [|q l]; [done|]. simpl. intros [= <-].
  revert q. induction l as [|x l IH]; intros q; simpl; [left|].
  destruct (Z.max_spec x (foldr Z.max q l)) as [[_ ->]|[_ ->]].
  - specialize (IH q). apply elem_of_cons in IH as [->|?]; [left|].
    by do 2 right.
  - right. left.
Qed.

(** On a table of non-negative point identifiers whose encoding does not
    overflow, the multiplier is the largest identifier plus one and every row
    is encodable. *)
Lemma no_overflow_encodable (point_data : list Row) (m : Z) :
  Forall (λ r, 0 ≤ point_id r) point_data →
  no_overflow point_data →
  point_id_multiplier_of point_data = Some m →
  0 < m ∧ Forall (encodable m) point_data.
Proof.
  intros Hnonneg Hfit Hm. unfold no_overflow in Hfit.
  destruct (max_point_id_of (point_id <$> point_data)) as [mx|] eqn:Hmax;
    [|unfold point_id_multiplier_of in Hm; by rewrite Hmax in Hm].
  destruct Hfit as [Hlt Hfit]. rewrite Forall_forall in Hnonneg, Hfit.
  assert (0 ≤ mx) as Hmx.
  { apply max_point_id_of_elem, list_elem_of_fmap in Hmax as (r & -> & Hr).
    by apply Hnonneg. }
  rewrite (multiplier_exact _ mx) in Hm by (unfold int64_min; done || lia).
  injection Hm as <-. split; [lia|].
  apply Forall_forall. intros r Hr. split; [|by apply Hfit].
  split; [by apply Hnonneg|].
  assert (point_id r ≤ mx); [|lia].
  eapply max_point_id_of_ge; [done|]. by apply list_elem_of_fmap_2.
Qed.

(** C2, as the code has it. Round trip of the identifier encoding: with
    [max_point_id] the largest point identifier of the input table, for every
    non-negative [sync_index] and every non-negative [point_id <=
    max_point_id] such that neither [max_point_id + 1] nor the combined
    identifier [sync_index * (max_point_id + 1) + point_id] exceeds the
    largest 64-bit integer, the multiplier of the batched mode is
    [max_point_id + 1], the combined identifier is stored as it is, and
    decoding it gives back [(sync_index, point_id)]: the floor division
    returns the synchronization index and the remainder the point
    identifier. *)
Theorem decode_encode_round_trip (point_data : list Row) (max_point_id s p : Z) :
  max_point_id_of (point_id <$> point_data) = Some max_point_id →
  0 ≤ s → 0 ≤ p → p ≤ max_point_id →
  max_point_id + 1 ≤ int64_max →
  s * (max_point_id + 1) + p ≤ int64_max →
  point_id_multiplier_of point_data = Some (max_point_id + 1)
  ∧ encode (max_point_id + 1) s p = s * (max_point_id + 1) + p
  ∧ decode (max_point_id + 1) (encode (max_point_id + 1) s p) = (s, p)
  ∧ (s * (max_point_id + 1) + p) / (max_point_id + 1) = s
  ∧ (s * (max_point_id + 1) + p) mod (max_point_id + 1) = p.
Proof.
  intros Hmax Hs Hp Hle Hm Hc.
  assert (is_int64 (s * (max_point_id + 1) + p)) as Hfit
    by (unfold is_int64, int64_min; split; [nia|done]).
  assert (decode (max_point_id + 1) (encode (max_point_id + 1) s p) = (s, p)) as Hd
    by (apply decode_encode; [lia|done]).
  split_and!.
  - apply multiplier_exact; [done|]. unfold int64_min. lia.
  - by apply encode_exact.
  - done.
  - symmetry. apply Z.div_unique with p; lia.
  - symmetry. apply Z.mod_unique with s; lia.
Qed.

(** C8, as the code has it. On a table whose point identifiers are all
    non-negative and whose encoding does not leave the 64-bit range, the
    multiplier of the batched mode (the largest point identifier plus one)
    strictly exceeds every point identifier of the table, and two rows that
    differ in (sync_index, point_id) get different combined identifiers: the
    encoding is injective, with no runtime check involved. *)
Theorem encoding_collision_free (point_data : list Row) (m : Z) (r1 r2 : Row) :
  Forall (λ r, 0 ≤ point_id r) point_data →
  no_overflow point_data →
  point_id_multiplier_of point_data = Some m →
  r1 ∈ point_data → r2 ∈ point_data →
  (sync_index r1, point_id r1) ≠ (sync_index r2, point_id r2) →
  point_id r1 < m ∧ point_id r2 < m
  ∧ point_id (remap_row m r1) ≠ point_id (remap_row m r2).
Proof.
  intros Hnonneg Hfit Hm Hr1 Hr2 Hne.
  destruct (no_overflow_encodable _ _ Hnonneg Hfit Hm) as [_ Hall].
  rewrite Forall_forall in Hall.
  destruct (Hall _ Hr1) as [? ?], (Hall _ Hr2) as [? ?].
  split_and!; [lia..|]. simpl. intros Heq.
  apply encode_inj in Heq as [? ?]; [|done..]. apply Hne. by f_equal.
Qed.

(** ** Runs of the assemblers, whatever the builder and the triangulator *)

Section AssemblerFacts.

Variable get_synched_paired_points : list Z → SyncPacket → SynchedStereoPointsPacket.
Variable triangulate_synched_points :
  CameraArray → SynchedStereoPointsPacket → SynchedStereoPointsPacket.
Variable to_table : StereoPointsPacket → list OutRow.

Abbreviation original :=
  (get_stereotriangulated_table_original
     get_synched_paired_points triangulate_synched_points to_table).
Abbreviation batched :=
  (get_stereotriangulated_table
     get_synched_paired_points triangulate_synched_points to_table).
Abbreviation bundle_points :=
  (bundle_stereo_points get_synched_paired_points triangulate_synched_points).
Abbreviation virtual_points :=
  (virtual_stereo_points get_synched_paired_points triangulate_synched_points).

Lemma for_each_run {A S : Type} (l : list A) (s : S) (body : S → A → M S)
    (events : A → list Event) (step : S → A → S) :
  (∀ s a, a ∈ l → body s a = (events a, inr (step s a))) →
  for_each l s body = (l ≫= events, inr (foldl step s l)).
Proof.
  revert s. induction l as [|a l IH]; intros s Hbody; [done|].
  cbn [for_each foldl]. rewrite Hbody by left. unfold bind.
  rewrite IH; [done|]. intros s' a' Ha'. apply Hbody. by right.
Qed.

Lemma collect_pair_run (ssp : SynchedStereoPointsPacket)
    (table : option (list OutRow)) (pair : Z * Z) :
  pair ∈ pairs ssp →
  collect_pair to_table ssp table pair
  = ([], inr (append_packet to_table table
                (default None (dict_get (stereo_points_packets ssp) pair)))).
Proof.
  intros Hin. unfold collect_pair.
  destruct (dict_get_keys (stereo_points_packets ssp) pair Hin) as [packet ->].
  by destruct packet as [packet|], table.
Qed.

Lemma collect_run (ssp : SynchedStereoPointsPacket) (table : option (list OutRow)) :
  collect to_table ssp table
  = ([], inr (append_packets to_table table (packets_met ssp))).
Proof.
  unfold collect, append_packets, packets_met.
  rewrite (for_each_run _ _ _ (λ _, [])
             (λ table pair, append_packet to_table table
                (default None (dict_get (stereo_points_packets ssp) pair)))).
  - rewrite foldl_fmap. f_equal. induction (pairs ssp); [done|]. by csimpl.
  - intros. by apply collect_pair_run.
Qed.

Lemma lookup_sync_groups_of (point_data : list Row) (sync_indices : list Z) (s : Z) :
  s ∈ sync_indices →
  sync_groups_of point_data sync_indices !! s
  = Some (filter (λ r, sync_index r = s) point_data).
Proof.
  intros Hs. unfold sync_groups_of.
  rewrite (lookup_foldl_insert (λ s, filter (λ r, sync_index r = s) point_data)).
  by rewrite decide_True.
Qed.

Lemma process_sync_index_run (camera_array : CameraArray) (point_data : list Row)
    (sync_indices : list Z) (table : option (list OutRow)) (s : Z) :
  s ∈ sync_indices →
  process_sync_index get_synched_paired_points triangulate_synched_points to_table
    camera_array (sync_groups_of point_data sync_indices) table s
  = (bundle_events get_synched_paired_points camera_array point_data s,
     inr (append_packets to_table table
            (packets_met (bundle_points camera_array point_data s)))).
Proof.
  intros Hs. unfold process_sync_index.
  rewrite lookup_sync_groups_of by done.
  unfold bind, emit. rewrite collect_run. reflexivity.
Qed.

Lemma original_run (camera_array : CameraArray) (point_data_path : Path)
    (point_data : list Row) :
  original camera_array point_data_path point_data
  = (EvReadCsv point_data_path
       :: (np_unique (sync_index <$> point_data)
             ≫= bundle_events get_synched_paired_points camera_array point_data)
       ++ [EvToCsv (output_path point_data_path)
             (pd_DataFrame (bundle_table get_synched_paired_points
                              triangulate_synched_points to_table
                              camera_array point_data))],
     inr (pd_DataFrame (bundle_table get_synched_paired_points
                          triangulate_synched_points to_table
                          camera_array point_data))).
Proof.
  unfold get_stereotriangulated_table_original.
  unfold bind at 1. unfold emit at 1. cbv zeta.
  rewrite (for_each_run _ _ _
             (bundle_events get_synched_paired_points camera_array point_data)
             (λ table s, append_packets to_table table
                (packets_met (bundle_points camera_array point_data s)))).
  - reflexivity.
  - intros. by apply process_sync_index_run.
Qed.

Lemma batched_run (camera_array : CameraArray) (point_data_path : Path)
    (point_data : list Row) :
  batched camera_array point_data_path point_data
  = match virtual_table get_synched_paired_points triangulate_synched_points
            to_table camera_array point_data with
    | None =>
        (EvReadCsv point_data_path
           :: virtual_events get_synched_paired_points camera_array point_data,
         inl (KeyError "point_id"))
    | Some rows =>
        let table :=
          match point_id_multiplier_of point_data with
          | Some m => Frame (restore_row m <$> rows)
          | None => NaNFrame rows
          end in
        (EvReadCsv point_data_path
           :: virtual_events get_synched_paired_points camera_array point_data
           ++ [EvToCsv (output_path point_data_path) table],
         inr table)
    end.
Proof.
  unfold get_stereotriangulated_table, virtual_table.
  unfold bind, emit. cbv zeta. rewrite collect_run.
  fold (virtual_sync_packet camera_array point_data).
  fold (virtual_points camera_array point_data).
  destruct (append_packets _ _ _) as [rows|]; [|done].
  cbn. by destruct (point_id_multiplier_of point_data).
Qed.

Lemma append_packets_None (table : option (list OutRow))
    (packets : list (option StereoPointsPacket)) :
  append_packets to_table table packets = None
  ↔ table = None ∧ ∀ packet, packet ∈ packets → packet = None.
Proof.
  unfold append_packets. revert table.
  induction packets as [|packet packets IH]; intros table; cbn [foldl].
  - split; [intros ->; split; [done|by intros ? ?%elem_of_nil]|by intros [-> _]].
  - rewrite IH. destruct packet as [packet|]; cbn.
    + split; [by intros [? _]|]. intros [_ Hall].
      by specialize (Hall (Some packet) (list_elem_of_here _ _)).
    + split; intros [-> Hall]; (split; [done|]).
      * intros p [->|?]%elem_of_cons; auto.
      * intros p ?. apply Hall. by right.
Qed.

Lemma append_packets_rows (table : option (list OutRow))
    (packets : list (option StereoPointsPacket)) :
  default [] (append_packets to_table table packets)
  = default [] table ++ (packets ≫= from_option to_table []).
Proof.
  unfold append_packets. revert table.
  induction packets as [|packet packets IH]; intros table; cbn [foldl].
  - csimpl. by rewrite app_nil_r.
  - rewrite IH. destruct packet as [packet|]; csimpl; [|done].
    by rewrite <- app_assoc.
Qed.

Lemma packets_met_all_null (ssp : SynchedStereoPointsPacket) :
  all_null ssp ↔ ∀ packet, packet ∈ packets_met ssp → packet = None.
Proof.
  unfold all_null, packets_met. split.
  - intros Hall packet (pair & -> & Hin)%list_elem_of_fmap.
    by rewrite Hall.
  - intros Hall pair Hin.
    destruct (dict_get_keys (stereo_points_packets ssp) pair Hin) as [packet Hget].
    rewrite Hget. f_equal.
    apply (Hall packet), list_elem_of_fmap. exists pair. by rewrite Hget.
Qed.

Lemma all_nullb_spec (ssp : SynchedStereoPointsPacket) :
  all_nullb ssp = true ↔ all_null ssp.
Proof.
  unfold all_nullb, all_null. rewrite forallb_forall. split.
  - intros Hall pair Hin. apply list_elem_of_In, Hall in Hin.
    by destruct (dict_get _ pair) as [[?|]|].
  - intros Hall pair Hin. apply list_elem_of_In, Hall in Hin. by rewrite Hin.
Qed.

Lemma all_nullb_false (ssp : SynchedStereoPointsPacket) :
  all_nullb ssp = false → ¬ all_null ssp.
Proof. intros Hb Hall. apply all_nullb_spec in Hall. congruence. Qed.

Lemma count_app (f : Event → bool) (t1 t2 : list Event) :
  count f (t1 ++ t2) = (count f t1 + count f t2)%nat.
Proof. unfold count. by rewrite List.filter_app, length_app. Qed.

Lemma count_cons (f : Event → bool) (e : Event) (t : list Event) :
  count f (e :: t) = ((if f e then 1 else 0) + count f t)%nat.
Proof. unfold count. cbn. by destruct (f e). Qed.

Lemma count_bundle_events (f : Event → bool) (camera_array : CameraArray)
    (point_data : list Row) (n : nat) (l : list Z) :
  (∀ s, count f (bundle_events get_synched_paired_points camera_array point_data s) = n) →
  count f (l ≫= bundle_events get_synched_paired_points camera_array point_data)
  = (length l * n)%nat.
Proof.
  intros Hn. induction l as [|s l IH]; [done|].
  rewrite bind_cons, count_app, IH, Hn. simpl. lia.
Qed.

Lemma Forall_remap_sync_index (point_data : list Row) :
  Forall (λ r, sync_index r = 0) (remap point_data).
Proof.
  unfold remap. destruct (point_id_multiplier_of point_data) as [m|] eqn:Hm.
  - apply Forall_fmap, Forall_true. done.
  - unfold point_id_multiplier_of in Hm. by destruct point_data.
Qed.

Lemma filter_port_remap_row (m p : Z) (l : list Row) :
  filter (λ r, port r = p) (remap_row m <$> l)
  = remap_row m <$> filter (λ r, port r = p) l.
Proof.
  induction l as [|r l IH]; [done|]. cbn [fmap list_fmap].
  rewrite !filter_cons. cbn [port remap_row].
  destruct (decide (port r = p)); cbn [fmap list_fmap]; by rewrite IH.
Qed.

Lemma lookup_frame_packets_for (make : Z → option FramePacket) (ports : list Z) (p : Z) :
  p ∈ ports → frame_packets_for make ports !! p = Some (make p).
Proof.
  intros Hp. unfold frame_packets_for.
  rewrite (lookup_foldl_insert make). by rewrite decide_True.
Qed.

Lemma zip_fmap_fmap {A B C : Type} (f : A → B) (g : A → C) (l : list A) :
  zip (f <$> l) (g <$> l) = (λ x, (f x, g x)) <$> l.
Proof. induction l as [|x l IH]; [done|]. cbn. by rewrite <- IH. Qed.

(** The remapping rewrites the two identifier columns only. *)
Lemma remap_keeps_rows (point_data : list Row) :
  (λ r, (port r, frame_time r, frame_index r, img_loc r, obj_loc r)) <$> remap point_data
  = (λ r, (port r, frame_time r, frame_index r, img_loc r, obj_loc r)) <$> point_data.
Proof.
  unfold remap. destruct (point_id_multiplier_of point_data) as [m|]; [|done].
  rewrite <- list_fmap_compose. by apply list_fmap_ext.
Qed.

(** The single SyncPacket holds, for a port of the camera array, the
    detections of all the rows of that port. *)
Lemma detections_of_virtual (camera_array : CameraArray) (point_data : list Row) (p : Z) :
  p ∈ ports_of camera_array →
  detections_of (virtual_sync_packet camera_array point_data) p
  = (λ r, (img_loc r, obj_loc r)) <$> filter (λ r, port r = p) point_data.
Proof.
  intros Hp. unfold detections_of. cbn [sp_frame_packets virtual_sync_packet].
  rewrite lookup_frame_packets_for by done. unfold virtual_frame_packet, remap.
  destruct (point_id_multiplier_of point_data) as [m|].
  - rewrite filter_port_remap_row.
    destruct (filter (λ r, port r = p) point_data) as [|r0 rest]; [done|].
    cbn [fmap list_fmap fp_points point_packet_of pp_img_loc pp_obj_loc].
    rewrite <- !list_fmap_compose.
    change (zip ((img_loc ∘ remap_row m) <$> r0 :: rest)
                ((obj_loc ∘ remap_row m) <$> r0 :: rest)
            = (λ r, (img_loc r, obj_loc r)) <$> r0 :: rest).
    by rewrite zip_fmap_fmap.
  - destruct (filter (λ r, port r = p) point_data) as [|r0 rest]; [done|].
    cbn [fp_points point_packet_of pp_img_loc pp_obj_loc]. by rewrite zip_fmap_fmap.
Qed.

(** C4. In the batched mode the remapped table has the rows of the input
    table, each with its [sync_index] forced to 0 and its port, frame and
    locations kept; a run constructs exactly one SyncPacket, of index 0, which
    holds for every port of the camera array the detections of all the rows of
    that port, whatever their original synchronization index; and it calls the
    correspondence builder and the triangulator exactly once each, on that
    packet; a run of the per-bundle mode does each of the three once per
    distinct synchronization index of the table. *)
Theorem batched_single_pass (camera_array : CameraArray) (point_data_path : Path)
    (point_data : list Row) :
  Forall (λ r, sync_index r = 0) (remap point_data)
  ∧ (λ r, (port r, frame_time r, frame_index r, img_loc r, obj_loc r))
      <$> remap point_data
    = (λ r, (port r, frame_time r, frame_index r, img_loc r, obj_loc r))
        <$> point_data
  ∧ sp_sync_index (virtual_sync_packet camera_array point_data) = 0
  ∧ detections_of (virtual_sync_packet camera_array point_data)
      <$> ports_of camera_array
    = (λ p, (λ r, (img_loc r, obj_loc r)) <$> filter (λ r, port r = p) point_data)
        <$> ports_of camera_array
  ∧ List.filter is_sync_packet (batched camera_array point_data_path point_data).1
    = [EvSyncPacket (virtual_sync_packet camera_array point_data)]
  ∧ List.filter is_builder_call (batched camera_array point_data_path point_data).1
    = [EvGetSynchedPairedPoints (virtual_sync_packet camera_array point_data)]
  ∧ List.filter is_triangulator_call (batched camera_array point_data_path point_data).1
    = [EvTriangulateSynchedPoints
         (get_synched_paired_points (ports_of camera_array)
            (virtual_sync_packet camera_array point_data))]
  ∧ count is_sync_packet (batched camera_array point_data_path point_data).1 = 1%nat
  ∧ count is_builder_call (batched camera_array point_data_path point_data).1 = 1%nat
  ∧ count is_triangulator_call (batched camera_array point_data_path point_data).1 = 1%nat
  ∧ count is_sync_packet (original camera_array point_data_path point_data).1
    = length (np_unique (sync_index <$> point_data))
  ∧ count is_builder_call (original camera_array point_data_path point_data).1
    = length (np_unique (sync_index <$> point_data))
  ∧ count is_triangulator_call (original camera_array point_data_path point_data).1
    = length (np_unique (sync_index <$> point_data)).
Proof.
  split; [apply Forall_remap_sync_index|].
  split; [apply remap_keeps_rows|]. split; [done|].
  split.
  { apply list_fmap_ext. intros i p Hp.
    apply detections_of_virtual. by eapply list_elem_of_lookup_2. }
  rewrite batched_run, original_run.
  split_and!;
    try (destruct (virtual_table _ _ _ _ _); reflexivity);
    cbn [fst]; rewrite count_cons, count_app;
    (erewrite (count_bundle_events _ _ _ 1%nat); [cbn; lia|done]).
Qed.

(** C6. A pair whose packet is [None] is skipped by the collecting loop that
    both modes run: its step leaves the accumulator as it was, emits nothing
    and raises nothing, and the whole loop gives what the loop without that
    pair gives. *)
Theorem null_pair_skipped (synched_stereo_points : SynchedStereoPointsPacket)
    (table : option (list OutRow)) (pair : Z * Z) (before after : list (Z * Z)) :
  pairs synched_stereo_points = before ++ pair :: after →
  dict_get (stereo_points_packets synched_stereo_points) pair = Some None →
  collect_pair to_table synched_stereo_points table pair = ([], inr table)
  ∧ collect to_table synched_stereo_points table
    = for_each (before ++ after) table (collect_pair to_table synched_stereo_points).
Proof.
  intros Hpairs Hnull. split.
  - unfold collect_pair. by rewrite Hnull.
  - unfold collect. rewrite Hpairs. clear Hpairs. revert table.
    induction before as [|q before IH]; intros table; cbn [app for_each].
    + unfold collect_pair at 1. rewrite Hnull. unfold bind, ret.
      by destruct (for_each after table _).
    + unfold bind. destruct (collect_pair _ _ _ q) as [t [e|table']]; [done|].
      by rewrite IH.
Qed.

Lemma bundle_frame_packet_None (port_points : list Row) (p : Z) :
  bundle_frame_packet port_points p = None ↔ ∀ r, r ∈ port_points → port r ≠ p.
Proof.
  unfold bundle_frame_packet.
  destruct (filter (λ r, port r = p) port_points) as [|r0 rest] eqn:Hf.
  - split; [|done]. intros _ r Hr Hport.
    assert (r ∈ filter (λ r, port r = p) port_points) as Hin
      by (by apply list_elem_of_filter).
    rewrite Hf in Hin. by apply elem_of_nil in Hin.
  - split; [done|]. intros Hall.
    assert (r0 ∈ filter (λ r, port r = p) port_points) as Hin
      by (rewrite Hf; left).
    apply list_elem_of_filter in Hin as [? ?]. by destruct (Hall r0).
Qed.

Lemma virtual_frame_packet_None (point_data : list Row) (p : Z) :
  virtual_frame_packet point_data p = None ↔ ∀ r, r ∈ point_data → port r ≠ p.
Proof.
  unfold virtual_frame_packet.
  destruct (filter (λ r, port r = p) point_data) as [|r0 rest] eqn:Hf.
  - split; [|done]. intros _ r Hr Hport.
    assert (r ∈ filter (λ r, port r = p) point_data) as Hin
      by (by apply list_elem_of_filter).
    rewrite Hf in Hin. by apply elem_of_nil in Hin.
  - split; [done|]. intros Hall.
    assert (r0 ∈ filter (λ r, port r = p) point_data) as Hin
      by (rewrite Hf; left).
    apply list_elem_of_filter in Hin as [? ?]. by destruct (Hall r0).
Qed.

Lemma elem_of_remap_port (point_data : list Row) (p : Z) :
  (∀ r, r ∈ remap point_data → port r ≠ p) ↔ (∀ r, r ∈ point_data → port r ≠ p).
Proof.
  unfold remap. destruct (point_id_multiplier_of point_data) as [m|]; [|done].
  split.
  - intros Hall r Hr.
    exact (Hall (remap_row m r) (list_elem_of_fmap_2 (remap_row m) _ _ Hr)).
  - intros Hall r' (r & -> & Hr)%list_elem_of_fmap. exact (Hall r Hr).
Qed.

Lemma sync_packet_of_original (camera_array : CameraArray) (point_data_path : Path)
    (point_data : list Row) (sync_packet : SyncPacket) :
  EvSyncPacket sync_packet ∈ (original camera_array point_data_path point_data).1
  ↔ ∃ s, s ∈ np_unique (sync_index <$> point_data)
         ∧ sync_packet = bundle_sync_packet camera_array point_data s.
Proof.
  rewrite original_run. cbn [fst].
  rewrite elem_of_cons, elem_of_app, list_elem_of_bind, list_elem_of_singleton.
  unfold bundle_events. split.
  - intros [?|[(s & Hin & Hs)|?]]; [done| |done].
    exists s. split; [done|].
    repeat (apply elem_of_cons in Hin as [Hin|Hin]; [congruence|]).
    by apply elem_of_nil in Hin.
  - intros (s & Hs & ->). right. left. exists s. split; [left|done].
Qed.

Lemma sync_packet_of_batched (camera_array : CameraArray) (point_data_path : Path)
    (point_data : list Row) (sync_packet : SyncPacket) :
  EvSyncPacket sync_packet ∈ (batched camera_array point_data_path point_data).1
  ↔ sync_packet = virtual_sync_packet camera_array point_data.
Proof.
  rewrite batched_run. split.
  - intros Hin. destruct (virtual_table _ _ _ _ _); cbn in Hin;
      repeat (apply elem_of_cons in Hin as [Hin|Hin]; [congruence|]);
      by apply elem_of_nil in Hin.
  - intros ->. destruct (virtual_table _ _ _ _ _); cbn; right; left.
Qed.

(** C5. Every SyncPacket that a run of either mode constructs has an entry
    for every port of the camera array; the entry is [None] exactly when the
    port has no detection there (no row of the packet's synchronization index
    in the per-bundle mode, no row at all in the batched mode).  The entry is
    present in the mapping either way. *)
Theorem sync_bundle_covers_ports (mode : Mode) (camera_array : CameraArray)
    (point_data_path : Path) (point_data : list Row)
    (sync_packet : SyncPacket) (p : Z) :
  EvSyncPacket sync_packet
    ∈ (assemble get_synched_paired_points triangulate_synched_points to_table
         mode camera_array point_data_path point_data).1 →
  p ∈ ports_of camera_array →
  ∃ entry : option FramePacket,
    sp_frame_packets sync_packet !! p = Some entry
    ∧ (entry = None
       ↔ match mode with
         | PerBundle =>
             ∀ r, r ∈ point_data → sync_index r = sp_sync_index sync_packet → port r ≠ p
         | Batched => ∀ r, r ∈ point_data → port r ≠ p
         end).
Proof.
  intros Hev Hp. destruct mode; cbn [assemble] in Hev.
  - apply sync_packet_of_original in Hev as (s & _ & ->).
    eexists. split; [by apply lookup_frame_packets_for|].
    rewrite bundle_frame_packet_None. cbn [sp_sync_index bundle_sync_packet]. split.
    + intros Hall r Hr Hs. apply Hall. by apply list_elem_of_filter.
    + intros Hall r [Hs Hr]%list_elem_of_filter. by apply Hall.
  - apply sync_packet_of_batched in Hev as ->.
    eexists. split; [by apply lookup_frame_packets_for|].
    by rewrite virtual_frame_packet_None, elem_of_remap_port.
Qed.

Lemma foldl_append_packets_None {A : Type} (g : A → list (option StereoPointsPacket))
    (table : option (list OutRow)) (l : list A) :
  foldl (λ table s, append_packets to_table table (g s)) table l = None
  ↔ table = None ∧ ∀ s packet, s ∈ l → packet ∈ g s → packet = None.
Proof.
  revert table. induction l as [|s l IH]; intros table; cbn [foldl].
  - split; [intros ->; split; [done|by intros ? ? ?%elem_of_nil]|by intros [-> _]].
  - rewrite IH, append_packets_None. split.
    + intros [[-> Hs] Hl]. split; [done|].
      intros s' packet [->|?]%elem_of_cons; eauto.
    + intros [-> Hall]. split_and!; [done|..].
      * intros packet. apply Hall. left.
      * intros s' packet ?. apply Hall. by right.
Qed.

Lemma foldl_append_packets_rows {A : Type} (g : A → list (option StereoPointsPacket))
    (table : option (list OutRow)) (l : list A) :
  default [] (foldl (λ table s, append_packets to_table table (g s)) table l)
  = default [] table ++ (l ≫= λ s, g s ≫= from_option to_table []).
Proof.
  revert table. induction l as [|s l IH]; intros table; cbn [foldl].
  - csimpl. by rewrite app_nil_r.
  - rewrite IH, append_packets_rows, bind_cons. by rewrite <- app_assoc.
Qed.

Lemma virtual_table_None (camera_array : CameraArray) (point_data : list Row) :
  virtual_table get_synched_paired_points triangulate_synched_points to_table
    camera_array point_data = None
  ↔ all_null (virtual_points camera_array point_data).
Proof.
  unfold virtual_table. rewrite append_packets_None, packets_met_all_null.
  split; [by intros [_ ?]|done].
Qed.

Lemma bundle_table_None (camera_array : CameraArray) (point_data : list Row) :
  (∀ s, s ∈ np_unique (sync_index <$> point_data) →
        all_null (bundle_points camera_array point_data s)) →
  bundle_table get_synched_paired_points triangulate_synched_points to_table
    camera_array point_data = None.
Proof.
  unfold bundle_table. induction (np_unique (sync_index <$> point_data)) as [|s l IH];
    intros Hall; [done|].
  cbn [foldl].
  replace (append_packets to_table None (packets_met (bundle_points camera_array point_data s)))
    with (@None (list OutRow)).
  - apply IH. intros s' Hs'. apply Hall. by right.
  - symmetry. apply append_packets_None. split; [done|].
    apply packets_met_all_null, Hall. left.
Qed.


(** C9. When every pair's packet is [None], in every bundle of the
    per-bundle mode and in the single bundle of the batched mode, the
    per-bundle mode writes and returns the empty table, while the batched
    mode raises [KeyError] on the [point_id] column of its empty table and
    writes nothing. *)
Theorem empty_result_divergence (camera_array : CameraArray)
    (point_data_path : Path) (point_data : list Row) :
  (∀ s, s ∈ np_unique (sync_index <$> point_data) →
        all_null (bundle_points camera_array point_data s)) →
  all_null (virtual_points camera_array point_data) →
  (∃ trace,
     original camera_array point_data_path point_data
     = (trace ++ [EvToCsv (output_path point_data_path) EmptyFrame], inr EmptyFrame)
     ∧ count is_to_csv trace = 0%nat)
  ∧ (∃ trace,
       batched camera_array point_data_path point_data
       = (trace, inl (KeyError "point_id"))
       ∧ count is_to_csv trace = 0%nat).
Proof.
  intros Hbundles Hvirtual. split.
  - rewrite original_run, bundle_table_None by done.
    eexists (_ :: _). split; [reflexivity|].
    rewrite count_cons. erewrite (count_bundle_events _ _ _ 0%nat); [cbn; lia|done].
  - rewrite batched_run. apply virtual_table_None in Hvirtual as ->.
    eexists. split; [reflexivity|done].
Qed.



Lemma point_id_multiplier_of_cons (r : Row) (point_data : list Row) :
  r ∈ point_data → is_Some (point_id_multiplier_of point_data).
Proof.
  unfold point_id_multiplier_of. destruct point_data; [by intros ?%elem_of_nil|].
  by eexists.
Qed.

(** C10, as the code has it. For a port [p] that has rows at the
    synchronization index [s]: the frame packet that the per-bundle mode
    builds for [p] at [s] carries the [frame_time] and [frame_index] of the
    port's first row at [s], while the single frame packet that the batched
    mode builds for [p] carries [frame_index] 0 and the [frame_time] of the
    port's first row in the whole table; so the two packets have the same
    [frame_index] exactly when that of the first row at [s] is 0, and the
    same [frame_time] exactly when the two first rows agree in it. *)
Theorem frame_metadata_differs (camera_array : CameraArray) (point_data_path : Path)
    (point_data : list Row) (s p : Z) (r0 r1 : Row) (rest rest' : list Row) :
  p ∈ ports_of camera_array →
  filter (λ r, port r = p) (filter (λ r, sync_index r = s) point_data) = r0 :: rest →
  filter (λ r, port r = p) point_data = r1 :: rest' →
  ∃ frame_b frame_v : FramePacket,
    EvSyncPacket (bundle_sync_packet camera_array point_data s)
      ∈ (original camera_array point_data_path point_data).1
    ∧ EvSyncPacket (virtual_sync_packet camera_array point_data)
        ∈ (batched camera_array point_data_path point_data).1
    ∧ sp_frame_packets (bundle_sync_packet camera_array point_data s) !! p
      = Some (Some frame_b)
    ∧ sp_frame_packets (virtual_sync_packet camera_array point_data) !! p
      = Some (Some frame_v)
    ∧ fp_frame_time frame_b = frame_time r0
    ∧ fp_frame_index frame_b = frame_index r0
    ∧ fp_frame_time frame_v = frame_time r1
    ∧ fp_frame_index frame_v = 0
    ∧ (fp_frame_index frame_b = fp_frame_index frame_v ↔ frame_index r0 = 0)
    ∧ (fp_frame_time frame_b = fp_frame_time frame_v
       ↔ frame_time r0 = frame_time r1).
Proof.
  intros Hp Hbundle Hport.
  assert (r0 ∈ point_data ∧ sync_index r0 = s) as [Hr0 Hs].
  { assert (r0 ∈ filter (λ r, port r = p)
                    (filter (λ r, sync_index r = s) point_data)) as Hin
      by (rewrite Hbundle; left).
    apply list_elem_of_filter in Hin as [_ Hin].
    apply list_elem_of_filter in Hin as [? ?]. done. }
  destruct (point_id_multiplier_of_cons r0 point_data Hr0) as [m Hm].
  eexists _, _. split_and!.
  - apply sync_packet_of_original. exists s. split; [|done].
    apply elem_of_np_unique. subst s. by apply list_elem_of_fmap_2.
  - by apply sync_packet_of_batched.
  - cbn [sp_frame_packets bundle_sync_packet].
    rewrite lookup_frame_packets_for by done.
    unfold bundle_frame_packet. rewrite Hbundle. reflexivity.
  - cbn [sp_frame_packets virtual_sync_packet].
    rewrite lookup_frame_packets_for by done.
    unfold virtual_frame_packet, remap. rewrite Hm, filter_port_remap_row, Hport.
    reflexivity.
  - done.
  - done.
  - done.
  - done.
  - done.
  - done.
Qed.

(** ** Further properties of the two assemblers *)

(** X2. With a builder, a triangulator and a [to_table] that return, and
    packets whose [pairs] are the keys of their dict, the lookup
    [sync_groups[sync_index]] of line 80 succeeds for every synchronization
    index of the loop, and the per-bundle mode returns a table whose rows are
    the rows of the packets that are not [None], bundle after bundle in
    ascending order of the synchronization index and, within a bundle, in the
    order of the packet's pairs; the table has no column at all exactly when
    every pair of every bundle is [None]. *)
Theorem per_bundle_table_in_order (camera_array : CameraArray)
    (point_data_path : Path) (point_data : list Row) :
  ∃ table : DataFrame,
    (original camera_array point_data_path point_data).2 = inr table
    ∧ frame_rows table
      = np_unique (sync_index <$> point_data)
          ≫= (λ s, packets_met (bundle_points camera_array point_data s)
                     ≫= from_option to_table [])
    ∧ (table = EmptyFrame
       ↔ ∀ s, s ∈ np_unique (sync_index <$> point_data) →
              all_null (bundle_points camera_array point_data s)).
Proof.
  rewrite original_run. eexists. split; [reflexivity|].
  pose proof (foldl_append_packets_rows
                (λ s, packets_met (bundle_points camera_array point_data s))
                None (np_unique (sync_index <$> point_data))) as Hrows.
  pose proof (foldl_append_packets_None
                (λ s, packets_met (bundle_points camera_array point_data s))
                None (np_unique (sync_index <$> point_data))) as Hnone.
  cbv beta in Hnone. unfold bundle_table.
  set (table := foldl _ None (np_unique (sync_index <$> point_data))) in *.
  clearbody table. cbn [default app] in Hrows.
  destruct table as [rows|]; cbn [pd_DataFrame frame_rows default] in *;
    (split; [done|]).
  - split; [done|]. intros Hall.
    assert (Some rows = None) as Habsurd; [|done].
    apply Hnone. split; [done|].
    intros s packet Hs. by apply packets_met_all_null, Hall.
  - split; [|done]. intros _ s Hs. apply packets_met_all_null.
    intros packet. by apply Hnone.
Qed.

(** X3. The per-bundle mode constructs its SyncPackets in strictly ascending
    order of the synchronization index, one for each synchronization index
    that occurs in the table and none for another. *)
Theorem per_bundle_sync_order (camera_array : CameraArray)
    (point_data_path : Path) (point_data : list Row) :
  omap sync_of_event (original camera_array point_data_path point_data).1
  = np_unique (sync_index <$> point_data)
  ∧ StronglySorted Z.lt
      (omap sync_of_event (original camera_array point_data_path point_data).1)
  ∧ (∀ s, s ∈ omap sync_of_event (original camera_array point_data_path point_data).1
          ↔ ∃ r, r ∈ point_data ∧ sync_index r = s).
Proof.
  assert (omap sync_of_event (original camera_array point_data_path point_data).1
          = np_unique (sync_index <$> point_data)) as ->.
  { rewrite original_run. cbn [fst omap list_omap sync_of_event].
    rewrite omap_app. cbn [omap list_omap sync_of_event]. rewrite app_nil_r.
    induction (np_unique (sync_index <$> point_data)) as [|s l IH]; [done|].
    rewrite bind_cons, omap_app, IH. reflexivity. }
  split_and!; [done|apply np_unique_sorted|].
  intros s. rewrite elem_of_np_unique, list_elem_of_fmap. split.
  - intros (r & -> & Hr). by exists r.
  - intros (r & Hr & <-). by exists r.
Qed.




Lemma wrap64_mod (z : Z) :
  wrap64 z mod 18446744073709551616 = z mod 18446744073709551616.
Proof.
  unfold wrap64, int64_min. rewrite Zplus_mod_idemp_l. f_equal. lia.
Qed.

Lemma wrap64_ext (a b : Z) :
  a mod 18446744073709551616 = b mod 18446744073709551616 → wrap64 a = wrap64 b.
Proof.
  intros Hab. unfold wrap64, int64_min. f_equal.
  rewrite <- (Zminus_mod_idemp_l a), <- (Zminus_mod_idemp_l b). by rewrite Hab.
Qed.

Lemma wrap64_mul_l (a b : Z) : wrap64 (wrap64 a * b) = wrap64 (a * b).
Proof.
  apply wrap64_ext.
  rewrite <- (Zmult_mod_idemp_l (wrap64 a)), wrap64_mod.
  apply Zmult_mod_idemp_l.
Qed.

Lemma encode_decode (m c : Z) :
  m ≠ 0 → is_int64 c → encode m (decode m c).1 (decode m c).2 = c.
Proof.
  intros Hm Hc. unfold decode. cbn [fst snd].
  rewrite encode_wrap, <- wrap64_add_l, wrap64_mul_l, wrap64_add_l.
  pose proof (Z.div_mod c m Hm).
  replace (c / m * m + c mod m) with c by lia. by apply wrap64_id.
Qed.

(** X5. Encoding what the decoding of lines 239-240 returns gives back the
    combined identifier, for every combined identifier of the 64-bit range
    and every multiplier other than 0; under a positive multiplier the
    decoded point identifier lies between 0 and the multiplier. *)
Theorem encode_decode_inverse (m c : Z) :
  m ≠ 0 → is_int64 c →
  encode m (decode m c).1 (decode m c).2 = c
  ∧ (0 < m → 0 ≤ (decode m c).2 < m)
  ∧ (m < 0 → m < (decode m c).2 ≤ 0).
Proof.
  intros Hm Hc. split; [by apply encode_decode|].
  unfold decode. cbn [snd]. split; intros ?.
  - apply Z.mod_pos_bound. lia.
  - apply Z.mod_neg_bound. lia.
Qed.

(** X6. When the table has a non-negative point identifier, none of its
    point identifiers is the largest 64-bit integer, and some pair of the
    single bundle has a packet, the multiplier of the batched mode is
    positive and the mode returns the packets' rows, each with its combined
    identifier decomposed: the returned point identifier lies between 0 and
    the multiplier, and the returned synchronization index and point
    identifier encode the combined identifier the row had, when that one is
    of the 64-bit range. *)
Theorem batched_rows_decoded (camera_array : CameraArray) (point_data_path : Path)
    (point_data : list Row) (r0 : Row) :
  r0 ∈ point_data → 0 ≤ point_id r0 →
  Forall (λ r, point_id r < int64_max) point_data →
  ¬ all_null (virtual_points camera_array point_data) →
  ∃ (m : Z) (rows : list OutRow),
    point_id_multiplier_of point_data = Some m ∧ 0 < m
    ∧ (∀ r, r ∈ point_data → point_id r < m)
    ∧ rows = packets_met (virtual_points camera_array point_data)
               ≫= from_option to_table []
    ∧ (batched camera_array point_data_path point_data).2
      = inr (Frame (restore_row m <$> rows))
    ∧ Forall (λ r, 0 ≤ out_point_id r < m) (restore_row m <$> rows)
    ∧ Forall (λ r, is_int64 (out_point_id r) →
                   encode m (out_sync_index (restore_row m r))
                            (out_point_id (restore_row m r))
                   = out_point_id r) rows.
Proof.
  intros Hr0 Hid Hmax Hpacket.
  destruct (max_point_id_of (point_id <$> point_data)) as [mx|] eqn:Hmx;
    [|by destruct point_data; [apply elem_of_nil in Hr0|]].
  assert (point_id r0 ≤ mx) as Hge
    by (eapply max_point_id_of_ge; [done|by apply list_elem_of_fmap_2]).
  assert (mx < int64_max) as Hlt.
  { pose proof (max_point_id_of_elem _ _ Hmx) as Hin.
    apply list_elem_of_fmap in Hin as (r & -> & Hr).
    rewrite Forall_forall in Hmax. by apply Hmax. }
  assert (point_id_multiplier_of point_data = Some (mx + 1)) as Hm
    by (apply multiplier_exact; [done|unfold int64_min; lia]).
  destruct (virtual_table get_synched_paired_points triangulate_synched_points
              to_table camera_array point_data) as [rows|] eqn:Htable;
    [|by apply virtual_table_None in Htable].
  exists (mx + 1), rows. split_and!; [done|lia|..].
  - intros r Hr. assert (point_id r ≤ mx); [|lia].
    eapply max_point_id_of_ge; [done|]. by apply list_elem_of_fmap_2.
  - pose proof (append_packets_rows None
                  (packets_met (virtual_points camera_array point_data))) as Hrows.
    fold (virtual_table get_synched_paired_points triangulate_synched_points
            to_table camera_array point_data) in Hrows.
    by rewrite Htable in Hrows.
  - by rewrite batched_run, Htable, Hm.
  - apply Forall_fmap, Forall_true. intros r. unfold restore_row, decode.
    cbn [out_point_id compose]. apply Z.mod_pos_bound. lia.
  - apply Forall_true. intros r Hc.
    pose proof (encode_decode (mx + 1) (out_point_id r)) as Hed.
    unfold restore_row. destruct (decode (mx + 1) (out_point_id r)) as [s p] eqn:Hd.
    cbn [out_sync_index out_point_id fst snd] in *. apply Hed; [lia|done].
Qed.

(** X7. In the batched mode, when the point identifiers of the table are
    non-negative and the encoding does not leave the 64-bit range, decoding
    the identifiers of the point packet of a port gives the (sync_index,
    point_id) pairs of the rows of that port, in the order of the table; and
    when those pairs are distinct for the port, so are the combined
    identifiers of its point packet. *)
Theorem virtual_point_ids_decode (camera_array : CameraArray)
    (point_data : list Row) (m p : Z) (r0 : Row) :
  Forall (λ r, 0 ≤ point_id r) point_data →
  no_overflow point_data →
  point_id_multiplier_of point_data = Some m →
  p ∈ ports_of camera_array →
  r0 ∈ point_data → port r0 = p →
  ∃ frame points,
    sp_frame_packets (virtual_sync_packet camera_array point_data) !! p
    = Some (Some frame)
    ∧ fp_points frame = Some points
    ∧ decode m <$> pp_point_id points
      = (λ r, (sync_index r, point_id r)) <$> filter (λ r, port r = p) point_data
    ∧ (NoDup ((λ r, (sync_index r, point_id r))
                <$> filter (λ r, port r = p) point_data) →
       NoDup (pp_point_id points)).
Proof.
  intros Hnonneg Hfit Hm Hp Hr0 Hport.
  destruct (no_overflow_encodable _ _ Hnonneg Hfit Hm) as [_ Hall].
  assert (remap point_data = remap_row m <$> point_data) as Hremap
    by (unfold remap; by rewrite Hm).
  assert (r0 ∈ filter (λ r, port r = p) point_data) as Hin
    by (by apply list_elem_of_filter).
  assert (decode m <$> (point_id <$> (remap_row m
                          <$> filter (λ r, port r = p) point_data))
          = (λ r, (sync_index r, point_id r))
              <$> filter (λ r, port r = p) point_data) as Hdecode.
  { rewrite <- !list_fmap_compose. apply list_fmap_ext. intros i r Hr.
    apply list_elem_of_lookup_2, list_elem_of_filter in Hr as [_ Hr].
    cbn [compose point_id remap_row].
    rewrite Forall_forall in Hall. destruct (Hall r Hr) as [? ?].
    by apply decode_encode. }
  cbn [sp_frame_packets virtual_sync_packet].
  rewrite lookup_frame_packets_for by done.
  unfold virtual_frame_packet. rewrite Hremap, filter_port_remap_row.
  destruct (filter (λ r, port r = p) point_data) as [|r1 rest] eqn:Hf;
    [by apply elem_of_nil in Hin|].
  eexists _, _. split_and!; [reflexivity|reflexivity| |].
  - exact Hdecode.
  - intros Hnodup. rewrite <- Hdecode in Hnodup.
    by apply NoDup_fmap_1 in Hnodup.
Qed.

(** X8. On a table whose point identifiers are of the 64-bit range, the
    multiplier of the batched mode is of that range too.  When no point
    identifier is the largest 64-bit integer, the multiplier is one more than
    a point identifier that occurs in the table and exceeds every point
    identifier of the table; when the largest 64-bit integer occurs as a
    point identifier, the addition of line 176 wraps and the multiplier is
    the least 64-bit integer, below every point identifier. *)
Theorem multiplier_is_max_plus_one (point_data : list Row) (m : Z) :
  Forall (λ r, is_int64 (point_id r)) point_data →
  point_id_multiplier_of point_data = Some m →
  is_int64 m
  ∧ ((∀ r, r ∈ point_data → point_id r < int64_max) →
     (∃ r, r ∈ point_data ∧ point_id r = m - 1)
     ∧ ∀ r, r ∈ point_data → point_id r < m)
  ∧ ((∃ r, r ∈ point_data ∧ point_id r = int64_max) →
     m = int64_min ∧ ∀ r, r ∈ point_data → m ≤ point_id r).
Proof.
  intros Hrange Hm. rewrite Forall_forall in Hrange.
  unfold point_id_multiplier_of in Hm.
  destruct (max_point_id_of (point_id <$> point_data)) as [mx|] eqn:Hmax; [|done].
  injection Hm as <-.
  pose proof (max_point_id_of_elem _ _ Hmax) as Hin.
  apply list_elem_of_fmap in Hin as (rmax & Hrmax & Hin).
  pose proof (Hrange _ Hin) as Hmx. rewrite <- Hrmax in Hmx.
  split_and!.
  - apply wrap64_range.
  - intros Hbelow. specialize (Hbelow _ Hin). rewrite <- Hrmax in Hbelow.
    rewrite wrap64_id by (unfold is_int64 in *; lia). split.
    + exists rmax. split; [done|lia].
    + intros r Hr. assert (point_id r ≤ mx); [|lia].
      eapply max_point_id_of_ge; [done|]. by apply list_elem_of_fmap_2.
  - intros (r & Hr & Hid).
    assert (point_id r ≤ mx) as Hle
      by (eapply max_point_id_of_ge; [done|by apply list_elem_of_fmap_2]).
    assert (mx = int64_max) as -> by (unfold is_int64 in *; lia).
    split; [reflexivity|]. intros r' Hr'.
    destruct (Hrange _ Hr') as [? _]. by vm_compute (wrap64 _).
Qed.

End AssemblerFacts.

(** ** The two modes with the builder and the triangulator of the spec *)

Section SpecModelFacts.

Abbreviation builder := StereoPointsBuilder_get_synched_paired_points.
Abbreviation triangulator := ArrayStereoTriangulator_triangulate_synched_points.

Lemma packets_of_spec (camera_array : CameraArray) (ports : list Z)
    (sync_packet : SyncPacket) :
  stereo_points_packets (triangulator camera_array (builder ports sync_packet))
  = (λ pair, (pair, triangulate_pair camera_array pair
                      <$> get_stereo_points_packet sync_packet pair))
      <$> combinations2 ports.
Proof.
  unfold ArrayStereoTriangulator_triangulate_synched_points,
    StereoPointsBuilder_get_synched_paired_points.
  cbn [stereo_points_packets]. by rewrite <- list_fmap_compose.
Qed.

Lemma pairs_of_spec (camera_array : CameraArray) (ports : list Z)
    (sync_packet : SyncPacket) :
  pairs (triangulator camera_array (builder ports sync_packet)) = combinations2 ports.
Proof.
  unfold pairs. rewrite packets_of_spec, <- list_fmap_compose.
  apply list_fmap_id.
Qed.

Lemma dict_get_of_spec (camera_array : CameraArray) (ports : list Z)
    (sync_packet : SyncPacket) (pair : Z * Z) :
  pair ∈ combinations2 ports →
  dict_get (stereo_points_packets
              (triangulator camera_array (builder ports sync_packet))) pair
  = Some (triangulate_pair camera_array pair
            <$> get_stereo_points_packet sync_packet pair).
Proof.
  intros Hin. rewrite packets_of_spec.
  by rewrite (dict_get_tabulate
                (λ pair, triangulate_pair camera_array pair
                           <$> get_stereo_points_packet sync_packet pair)).
Qed.

Lemma packets_met_of_spec (camera_array : CameraArray) (ports : list Z)
    (sync_packet : SyncPacket) :
  packets_met (triangulator camera_array (builder ports sync_packet))
  = (λ pair, triangulate_pair camera_array pair
               <$> get_stereo_points_packet sync_packet pair)
      <$> combinations2 ports.
Proof.
  unfold packets_met. rewrite pairs_of_spec.
  apply list_fmap_ext. intros i pair Hpair.
  rewrite dict_get_of_spec; [done|]. by eapply list_elem_of_lookup_2.
Qed.

Lemma rows_of_spec (camera_array : CameraArray) (ports : list Z)
    (sync_packet : SyncPacket) :
  packets_met (triangulator camera_array (builder ports sync_packet))
    ≫= from_option StereoPointsPacket_to_table []
  = combinations2 ports ≫= pair_rows camera_array sync_packet.
Proof. rewrite packets_met_of_spec, list_fmap_bind. done. Qed.

Lemma img_loc_of_rows (rows : list Row) (i : Z) :
  img_loc_of (point_packet_of rows) i = img_loc <$> first_with_id i rows.
Proof.
  unfold img_loc_of, first_with_id. cbn [pp_point_id pp_img_loc point_packet_of].
  induction rows as [|r rows IH]; [done|].
  cbn [fmap list_fmap zip zip_with dict_get]. rewrite filter_cons.
  destruct (decide (point_id r = i)); [done|]. apply IH.
Qed.

Lemma to_table_points (s a b : Z) (points : list MatchedPoint) :
  StereoPointsPacket_to_table
    {| spp_sync_index := s; spp_port_a := a; spp_port_b := b; spp_points := points |}
  = omap (λ m, mkOutRow s a b (mp_point_id m) (mp_img_loc_a m) (mp_img_loc_b m)
                 <$> mp_xyz m) points.
Proof. reflexivity. Qed.

Lemma to_table_untriangulated (s a b : Z) (points_a points_b : PointPacket)
    (l : list Z) :
  StereoPointsPacket_to_table
    {| spp_sync_index := s; spp_port_a := a; spp_port_b := b;
       spp_points := omap (matched_point points_a points_b) l |} = [].
Proof.
  rewrite to_table_points.
  induction l as [|i l IH]; [done|]. cbn [omap list_omap].
  unfold matched_point at 1.
  destruct (img_loc_of points_a i), (img_loc_of points_b i); apply IH.
Qed.

Lemma to_table_triangulated (s a b : Z) (solve : Loc2 → Loc2 → Loc3)
    (rows_a rows_b : list Row) (l : list Z) :
  StereoPointsPacket_to_table
    {| spp_sync_index := s; spp_port_a := a; spp_port_b := b;
       spp_points :=
         (λ m, {| mp_point_id := mp_point_id m;
                  mp_img_loc_a := mp_img_loc_a m;
                  mp_img_loc_b := mp_img_loc_b m;
                  mp_xyz := Some (solve (mp_img_loc_a m) (mp_img_loc_b m)) |})
           <$> omap (matched_point (point_packet_of rows_a) (point_packet_of rows_b)) l |}
  = omap (matched_row s a b solve rows_a rows_b) l.
Proof.
  rewrite to_table_points.
  induction l as [|i l IH]; [done|]. cbn [omap list_omap].
  unfold matched_point at 1, matched_row at 1. rewrite !img_loc_of_rows.
  destruct (first_with_id i rows_a), (first_with_id i rows_b); try apply IH.
  cbn. f_equal. apply IH.
Qed.

Lemma filter_elem_of_nil (l : list Z) : filter (λ x, x ∈ @nil Z) l = [].
Proof.
  induction l as [|x l IH]; [done|]. rewrite filter_cons.
  destruct (decide (x ∈ [])) as [Hin|_]; [by apply elem_of_nil in Hin|done].
Qed.

Lemma get_stereo_points_packet_points (sync_packet : SyncPacket) (a b : Z)
    (entry_a entry_b : option FramePacket) :
  sp_frame_packets sync_packet !! a = Some entry_a →
  sp_frame_packets sync_packet !! b = Some entry_b →
  get_stereo_points_packet sync_packet (a, b)
  = match entry_a ≫= fp_points, entry_b ≫= fp_points with
    | Some points_a, Some points_b =>
        match np_intersect1d (pp_point_id points_a) (pp_point_id points_b) with
        | [] => None
        | common_ids =>
            Some {| spp_sync_index := sp_sync_index sync_packet;
                    spp_port_a := a;
                    spp_port_b := b;
                    spp_points := omap (matched_point points_a points_b) common_ids |}
        end
    | _, _ => None
    end.
Proof.
  intros Ha Hb. unfold get_stereo_points_packet. rewrite Ha, Hb.
  destruct entry_a as [[? ? ? ? [?|]]|], entry_b as [[? ? ? ? [?|]]|]; reflexivity.
Qed.

Lemma pair_rows_of_rows (camera_array : CameraArray) (sync_packet : SyncPacket)
    (a b : Z) (entry_a entry_b : option FramePacket) (rows_a rows_b : list Row) :
  sp_frame_packets sync_packet !! a = Some entry_a →
  sp_frame_packets sync_packet !! b = Some entry_b →
  entry_a ≫= fp_points = points_of_rows rows_a →
  entry_b ≫= fp_points = points_of_rows rows_b →
  pair_rows camera_array sync_packet (a, b)
  = matched_rows camera_array (sp_sync_index sync_packet) a b rows_a rows_b.
Proof.
  intros Ha Hb Hpa Hpb. unfold pair_rows, matched_rows.
  rewrite (get_stereo_points_packet_points _ _ _ _ _ Ha Hb), Hpa, Hpb.
  destruct rows_a as [|ra rows_a].
  { cbn. by destruct (stereo_geometry camera_array a b). }
  destruct rows_b as [|rb rows_b].
  { cbn [points_of_rows fmap list_fmap]. unfold np_intersect1d.
    rewrite filter_elem_of_nil. cbn. by destruct (stereo_geometry camera_array a b). }
  cbn [points_of_rows].
  change (pp_point_id (point_packet_of (ra :: rows_a)))
    with (point_id <$> ra :: rows_a).
  change (pp_point_id (point_packet_of (rb :: rows_b)))
    with (point_id <$> rb :: rows_b).
  destruct (np_intersect1d _ _) as [|i common].
  { cbn. by destruct (stereo_geometry camera_array a b). }
  cbn [fmap option_fmap option_map from_option]. unfold triangulate_pair. cbn [fst snd].
  destruct (stereo_geometry camera_array a b) as [solve|].
  - apply to_table_triangulated.
  - apply to_table_untriangulated.
Qed.

Lemma points_of_bundle_frame_packet (port_points : list Row) (p : Z) :
  bundle_frame_packet port_points p ≫= fp_points
  = points_of_rows (filter (λ r, port r = p) port_points).
Proof.
  unfold bundle_frame_packet.
  by destruct (filter (λ r, port r = p) port_points).
Qed.

Lemma points_of_virtual_frame_packet (point_data : list Row) (p : Z) :
  virtual_frame_packet point_data p ≫= fp_points
  = points_of_rows (filter (λ r, port r = p) point_data).
Proof.
  unfold virtual_frame_packet.
  by destruct (filter (λ r, port r = p) point_data).
Qed.

Lemma filter_port_sync (point_data : list Row) (s p : Z) :
  filter (λ r, port r = p) (filter (λ r, sync_index r = s) point_data)
  = filter (λ r, sync_index r = s) (filter (λ r, port r = p) point_data).
Proof. rewrite !list_filter_filter. apply list_filter_iff. tauto. Qed.

Lemma pair_rows_bundle (camera_array : CameraArray) (point_data : list Row)
    (s a b : Z) :
  a ∈ ports_of camera_array → b ∈ ports_of camera_array →
  pair_rows camera_array (bundle_sync_packet camera_array point_data s) (a, b)
  = matched_rows camera_array s a b
      (filter (λ r, sync_index r = s) (filter (λ r, port r = a) point_data))
      (filter (λ r, sync_index r = s) (filter (λ r, port r = b) point_data)).
Proof.
  intros Ha Hb. rewrite <- !filter_port_sync.
  apply (pair_rows_of_rows camera_array
           (bundle_sync_packet camera_array point_data s) a b _ _ _ _
           (lookup_frame_packets_for _ _ _ Ha) (lookup_frame_packets_for _ _ _ Hb));
    apply points_of_bundle_frame_packet.
Qed.

Lemma pair_rows_virtual (camera_array : CameraArray) (point_data : list Row)
    (m a b : Z) :
  point_id_multiplier_of point_data = Some m →
  a ∈ ports_of camera_array → b ∈ ports_of camera_array →
  pair_rows camera_array (virtual_sync_packet camera_array point_data) (a, b)
  = matched_rows camera_array 0 a b
      (remap_row m <$> filter (λ r, port r = a) point_data)
      (remap_row m <$> filter (λ r, port r = b) point_data).
Proof.
  intros Hm Ha Hb. rewrite <- !filter_port_remap_row.
  replace (remap_row m <$> point_data) with (remap point_data)
    by (unfold remap; by rewrite Hm).
  apply (pair_rows_of_rows camera_array
           (virtual_sync_packet camera_array point_data) a b _ _ _ _
           (lookup_frame_packets_for _ _ _ Ha) (lookup_frame_packets_for _ _ _ Hb));
    apply points_of_virtual_frame_packet.
Qed.

Lemma first_with_id_Some (i : Z) (rows : list Row) (r : Row) :
  first_with_id i rows = Some r → r ∈ rows ∧ point_id r = i.
Proof.
  unfold first_with_id. intros Hhead.
  apply head_Some_elem_of, list_elem_of_filter in Hhead. tauto.
Qed.

Lemma first_with_id_is_Some (i : Z) (rows : list Row) :
  i ∈ point_id <$> rows → is_Some (first_with_id i rows).
Proof.
  intros (r & -> & Hr)%list_elem_of_fmap. unfold first_with_id.
  apply head_is_Some. intros Hnil.
  assert (r ∈ filter (λ r', point_id r' = point_id r) rows) as Hin
    by (by apply list_elem_of_filter).
  rewrite Hnil in Hin. by apply elem_of_nil in Hin.
Qed.

Lemma first_with_id_remap (m s i : Z) (l : list Row) :
  Forall (encodable m) l → 0 ≤ i < m → is_int64 (s * m + i) →
  first_with_id (encode m s i) (remap_row m <$> l)
  = remap_row m <$> first_with_id i (filter (λ r, sync_index r = s) l).
Proof.
  intros Hl Hi Hc. unfold first_with_id.
  induction Hl as [|r l [Hr Hcr] Hl IH]; [done|].
  cbn [fmap list_fmap]. rewrite !filter_cons. cbn [point_id remap_row].
  destruct (decide (sync_index r = s)) as [Hs|Hs].
  - rewrite filter_cons. destruct (decide (point_id r = i)) as [Hid|Hid].
    + rewrite decide_True by (by subst). done.
    + rewrite decide_False; [apply IH|].
      intros Heq. apply encode_inj in Heq as [_ ?]; done.
  - rewrite decide_False; [apply IH|].
    intros Heq. apply encode_inj in Heq as [? _]; done.
Qed.

Lemma elem_of_matched_rows (camera_array : CameraArray) (s a b : Z)
    (rows_a rows_b : list Row) (x : OutRow) :
  x ∈ matched_rows camera_array s a b rows_a rows_b
  ↔ ∃ solve i, stereo_geometry camera_array a b = Some solve
               ∧ matched_row s a b solve rows_a rows_b i = Some x.
Proof.
  unfold matched_rows. split.
  - destruct (stereo_geometry camera_array a b) as [solve|];
      [|by intros ?%elem_of_nil].
    intros (i & _ & Hi)%list_elem_of_omap. by exists solve, i.
  - intros (solve & i & -> & Hi). apply list_elem_of_omap. exists i. split; [|done].
    unfold matched_row in Hi.
    destruct (first_with_id i rows_a) as [ra|] eqn:Ha; [|done].
    destruct (first_with_id i rows_b) as [rb|] eqn:Hb; [|done].
    apply first_with_id_Some in Ha as [? <-], Hb as [? Hb].
    apply elem_of_np_intersect1d. split.
    + by apply list_elem_of_fmap_2.
    + rewrite <- Hb. by apply list_elem_of_fmap_2.
Qed.

Lemma matched_row_Some (s a b : Z) (solve : Loc2 → Loc2 → Loc3)
    (rows_a rows_b : list Row) (i : Z) (x : OutRow) :
  matched_row s a b solve rows_a rows_b i = Some x →
  out_sync_index x = s ∧ out_point_id x = i
  ∧ ∃ ra, ra ∈ rows_a ∧ point_id ra = i.
Proof.
  unfold matched_row.
  destruct (first_with_id i rows_a) as [ra|] eqn:Ha; [|done].
  destruct (first_with_id i rows_b) as [rb|]; [|done].
  intros [= <-]. apply first_with_id_Some in Ha. split_and!; [done..|by exists ra].
Qed.

Lemma NoDup_omap_inj {A B : Type} (f : A → option B) (l : list A) :
  (∀ i j x, f i = Some x → f j = Some x → i = j) → NoDup l → NoDup (omap f l).
Proof.
  intros Hinj. induction 1 as [|i l Hi Hl IH]; [constructor|].
  cbn [omap list_omap]. destruct (f i) as [x|] eqn:Hx; [|done].
  constructor; [|done].
  intros (j & Hj & Hfj)%list_elem_of_omap.
  by rewrite (Hinj i j x Hx Hfj) in Hi.
Qed.

Lemma NoDup_matched_rows (camera_array : CameraArray) (s a b : Z)
    (rows_a rows_b : list Row) :
  NoDup (matched_rows camera_array s a b rows_a rows_b).
Proof.
  unfold matched_rows.
  destruct (stereo_geometry camera_array a b) as [solve|]; [|constructor].
  apply NoDup_omap_inj; [|apply sorted_lt_NoDup, np_unique_sorted].
  intros i j x Hi Hj.
  apply matched_row_Some in Hi as (_ & <- & _), Hj as (_ & <- & _). done.
Qed.

Lemma restore_matched_row (m s i a b : Z) (solve : Loc2 → Loc2 → Loc3)
    (rows_a rows_b : list Row) :
  Forall (encodable m) rows_a →
  Forall (encodable m) rows_b →
  0 ≤ i < m → is_int64 (s * m + i) →
  restore_row m
    <$> matched_row 0 a b solve (remap_row m <$> rows_a) (remap_row m <$> rows_b)
          (encode m s i)
  = matched_row s a b solve
      (filter (λ r, sync_index r = s) rows_a)
      (filter (λ r, sync_index r = s) rows_b) i.
Proof.
  intros Ha Hb Hi Hc. unfold matched_row. rewrite !first_with_id_remap by done.
  destruct (first_with_id i (filter _ rows_a)) as [ra|]; [|done].
  destruct (first_with_id i (filter _ rows_b)) as [rb|]; [|done].
  cbn [fmap option_fmap option_map]. unfold restore_row.
  cbn [out_point_id out_port_a out_port_b out_img_loc_a out_img_loc_b out_xyz].
  rewrite decode_encode by done. reflexivity.
Qed.

Lemma bind_nil_all {A B : Type} (l : list A) : l ≫= (λ _, @nil B) = [].
Proof. by induction l. Qed.

Lemma bind_Permutation_ext {A B : Type} (f g : A → list B) (l : list A) :
  (∀ k, k ∈ l → f k ≡ₚ g k) → l ≫= f ≡ₚ l ≫= g.
Proof.
  induction l as [|k l IH]; intros Hfg; [done|].
  rewrite !bind_cons. f_equiv; [apply Hfg; left|].
  apply IH. intros k' ?. apply Hfg. by right.
Qed.

Lemma bind_app_Permutation {A B : Type} (f g : A → list B) (l : list A) :
  l ≫= (λ k, f k ++ g k) ≡ₚ (l ≫= f) ++ (l ≫= g).
Proof.
  induction l as [|k l IH]; [done|].
  rewrite !bind_cons, IH, <- !app_assoc. f_equiv.
  rewrite !app_assoc. f_equiv. apply Permutation_app_comm.
Qed.

Lemma bind_swap {A B C : Type} (f : A → B → list C) (l1 : list A) (l2 : list B) :
  l1 ≫= (λ a, l2 ≫= f a) ≡ₚ l2 ≫= (λ b, l1 ≫= (λ a, f a b)).
Proof.
  induction l1 as [|a l1 IH].
  - change (l2 ≫= (λ b, [] ≫= (λ a, f a b))) with (l2 ≫= (λ _ : B, @nil C)).
    by rewrite bind_nil_all.
  - rewrite bind_cons, IH, <- bind_app_Permutation. done.
Qed.

Lemma Forall_filter_rows (P Q : Row → Prop) `{!∀ r, Decision (Q r)} (l : list Row) :
  Forall P l → Forall P (filter Q l).
Proof.
  rewrite !Forall_forall. intros Hl r [_ Hr]%list_elem_of_filter. by apply Hl.
Qed.

Lemma pair_permutation (camera_array : CameraArray) (point_data : list Row)
    (m a b : Z) :
  Forall (encodable m) point_data →
  m ≠ 0 →
  restore_row m
    <$> matched_rows camera_array 0 a b
          (remap_row m <$> filter (λ r, port r = a) point_data)
          (remap_row m <$> filter (λ r, port r = b) point_data)
  ≡ₚ np_unique (sync_index <$> point_data)
       ≫= λ s, matched_rows camera_array s a b
                 (filter (λ r, sync_index r = s) (filter (λ r, port r = a) point_data))
                 (filter (λ r, sync_index r = s) (filter (λ r, port r = b) point_data)).
Proof.
  intros Hrange Hm.
  set (rows_a := filter (λ r, port r = a) point_data).
  set (rows_b := filter (λ r, port r = b) point_data).
  assert (Forall (encodable m) rows_a) as Ha
    by (by apply Forall_filter_rows).
  assert (Forall (encodable m) rows_b) as Hb
    by (by apply Forall_filter_rows).
  apply NoDup_Permutation.
  - unfold matched_rows.
    destruct (stereo_geometry camera_array a b) as [solve|]; [|constructor].
    rewrite list_fmap_omap.
    apply NoDup_omap_inj; [|apply sorted_lt_NoDup, np_unique_sorted].
    intros e e' x (y & Hy & ->)%fmap_Some (y' & Hy' & Hx)%fmap_Some.
    apply matched_row_Some in Hy as (_ & Hy & r1' & Hr1 & <-).
    apply matched_row_Some in Hy' as (_ & Hy' & r2' & Hr2 & <-).
    apply list_elem_of_fmap in Hr1 as (r1 & -> & Hr1), Hr2 as (r2 & -> & Hr2).
    assert (encodable m r1) as [? ?] by (by eapply Forall_forall in Ha).
    assert (encodable m r2) as [? ?] by (by eapply Forall_forall in Ha).
    cbn [point_id remap_row] in *.
    unfold restore_row in Hx. rewrite Hy, Hy', !decode_encode in Hx by done.
    injection Hx as Hsync _ _ Hpoint _ _ _. by rewrite Hsync, Hpoint.
  - apply NoDup_bind; [|intros; apply NoDup_matched_rows
                       |apply sorted_lt_NoDup, np_unique_sorted].
    intros s1 s2 x _ _ (? & ? & _ & H1)%elem_of_matched_rows
      (? & ? & _ & H2)%elem_of_matched_rows.
    apply matched_row_Some in H1 as (<- & _), H2 as (<- & _). done.
  - intros x. rewrite list_elem_of_fmap, list_elem_of_bind. split.
    + intros (y & -> & (solve & e & Hsolve & He)%elem_of_matched_rows).
      destruct (matched_row_Some _ _ _ _ _ _ _ _ He) as (_ & _ & r' & Hr' & Hid).
      apply list_elem_of_fmap in Hr' as (r & -> & Hr).
      cbn [point_id remap_row] in Hid. subst e.
      assert (encodable m r) as [Hi Hc]
        by (by eapply Forall_forall in Ha).
      exists (sync_index r). split.
      * apply elem_of_matched_rows. exists solve, (point_id r). split; [done|].
        rewrite <- (restore_matched_row m) by done. by rewrite He.
      * apply elem_of_np_unique, list_elem_of_fmap_2.
        apply list_elem_of_filter in Hr. tauto.
    + intros (s & (solve & i & Hsolve & Hi)%elem_of_matched_rows & Hs).
      destruct (matched_row_Some _ _ _ _ _ _ _ _ Hi) as (_ & _ & r & Hr & Hid).
      apply list_elem_of_filter in Hr as [Hsr Hr].
      assert (encodable m r) as [Hrange_i Hc]
        by (by eapply Forall_forall in Ha).
      rewrite Hid in Hrange_i. rewrite Hid, Hsr in Hc.
      rewrite <- (restore_matched_row m) in Hi by done.
      apply fmap_Some in Hi as (y & Hy & ->).
      exists y. split; [done|]. apply elem_of_matched_rows. by exists solve, (encode m s i).
Qed.

Lemma packet_is_Some (sync_packet : SyncPacket) (a b i : Z)
    (entry_a entry_b : option FramePacket) (rows_a rows_b : list Row) :
  sp_frame_packets sync_packet !! a = Some entry_a →
  sp_frame_packets sync_packet !! b = Some entry_b →
  entry_a ≫= fp_points = points_of_rows rows_a →
  entry_b ≫= fp_points = points_of_rows rows_b →
  i ∈ point_id <$> rows_a → i ∈ point_id <$> rows_b →
  is_Some (get_stereo_points_packet sync_packet (a, b)).
Proof.
  intros Ha Hb Hpa Hpb Hia Hib.
  rewrite (get_stereo_points_packet_points _ _ _ _ _ Ha Hb), Hpa, Hpb.
  assert (i ∈ np_intersect1d (point_id <$> rows_a) (point_id <$> rows_b)) as Hi
    by (by apply elem_of_np_intersect1d).
  destruct rows_a as [|ra rows_a]; [by apply elem_of_nil in Hia|].
  destruct rows_b as [|rb rows_b]; [by apply elem_of_nil in Hib|].
  cbn [points_of_rows].
  change (pp_point_id (point_packet_of (ra :: rows_a)))
    with (point_id <$> ra :: rows_a).
  change (pp_point_id (point_packet_of (rb :: rows_b)))
    with (point_id <$> rb :: rows_b).
  destruct (np_intersect1d _ _); [by apply elem_of_nil in Hi|]. by eexists.
Qed.

Lemma fmap_bind_rows {A B C : Type} (f : B → C) (g : A → list B) (l : list A) :
  f <$> (l ≫= g) = l ≫= (λ k, f <$> g k).
Proof.
  induction l as [|k l IH]; [done|]. by rewrite !bind_cons, fmap_app, IH.
Qed.

Lemma bundle_table_rows (camera_array : CameraArray) (point_data : list Row) :
  default [] (bundle_table builder triangulator StereoPointsPacket_to_table
                camera_array point_data)
  = np_unique (sync_index <$> point_data)
      ≫= λ s, combinations2 (ports_of camera_array)
                ≫= pair_rows camera_array
                     (bundle_sync_packet camera_array point_data s).
Proof.
  unfold bundle_table.
  rewrite (foldl_append_packets_rows StereoPointsPacket_to_table
             (λ s, packets_met (bundle_stereo_points builder triangulator
                                  camera_array point_data s))).
  cbn [default app]. apply list_bind_ext; [|done].
  intros s. apply rows_of_spec.
Qed.

Lemma virtual_table_rows (camera_array : CameraArray) (point_data : list Row) :
  default [] (virtual_table builder triangulator StereoPointsPacket_to_table
                camera_array point_data)
  = combinations2 (ports_of camera_array)
      ≫= pair_rows camera_array (virtual_sync_packet camera_array point_data).
Proof.
  unfold virtual_table. rewrite append_packets_rows. cbn [default app].
  apply rows_of_spec.
Qed.

Lemma tables_permutation (camera_array : CameraArray) (point_data : list Row) (m : Z) :
  point_id_multiplier_of point_data = Some m →
  Forall (encodable m) point_data →
  m ≠ 0 →
  default [] (bundle_table builder triangulator StereoPointsPacket_to_table
                camera_array point_data)
  ≡ₚ restore_row m
       <$> default [] (virtual_table builder triangulator StereoPointsPacket_to_table
                         camera_array point_data).
Proof.
  intros Hm Hrange Hm0.
  rewrite bundle_table_rows, virtual_table_rows, fmap_bind_rows, bind_swap.
  apply bind_Permutation_ext. intros [a b] [Ha Hb]%elem_of_combinations2.
  rewrite (pair_rows_virtual _ _ m) by done.
  rewrite pair_permutation by done.
  apply reflexive_eq, list_bind_ext; [|done].
  intros s. by apply pair_rows_bundle.
Qed.

Lemma shared_point_bundle (camera_array : CameraArray) (point_data : list Row)
    (a b : Z) (ra rb : Row) :
  (a, b) ∈ combinations2 (ports_of camera_array) →
  ra ∈ point_data → rb ∈ point_data →
  port ra = a → port rb = b →
  sync_index ra = sync_index rb → point_id ra = point_id rb →
  is_Some (bundle_table builder triangulator StereoPointsPacket_to_table
             camera_array point_data).
Proof.
  intros Hpair Hra Hrb Hpa Hpb Hs Hid.
  destruct (elem_of_combinations2 _ _ _ Hpair) as [Ha Hb].
  apply not_eq_None_Some. unfold bundle_table.
  rewrite (foldl_append_packets_None StereoPointsPacket_to_table
             (λ s, packets_met (bundle_stereo_points builder triangulator
                                  camera_array point_data s))).
  intros [_ Hall].
  destruct (packet_is_Some (bundle_sync_packet camera_array point_data (sync_index ra))
              a b (point_id ra) _ _ _ _
              (lookup_frame_packets_for _ _ _ Ha) (lookup_frame_packets_for _ _ _ Hb)
              (points_of_bundle_frame_packet _ _) (points_of_bundle_frame_packet _ _))
    as [packet Hpacket].
  - apply list_elem_of_fmap_2. by rewrite !list_elem_of_filter.
  - rewrite Hid. apply list_elem_of_fmap_2. by rewrite !list_elem_of_filter.
  - specialize (Hall (sync_index ra)
                  (triangulate_pair camera_array (a, b)
                     <$> get_stereo_points_packet
                           (bundle_sync_packet camera_array point_data (sync_index ra))
                           (a, b))).
    rewrite Hpacket in Hall. discriminate Hall.
    + apply elem_of_np_unique. by apply list_elem_of_fmap_2.
    + unfold bundle_stereo_points. rewrite packets_met_of_spec, <- Hpacket.
      by apply (list_elem_of_fmap_2
                  (λ pair, triangulate_pair camera_array pair
                             <$> get_stereo_points_packet _ pair)).
Qed.

Lemma shared_point_virtual (camera_array : CameraArray) (point_data : list Row)
    (m a b : Z) (ra rb : Row) :
  point_id_multiplier_of point_data = Some m →
  (a, b) ∈ combinations2 (ports_of camera_array) →
  ra ∈ point_data → rb ∈ point_data →
  port ra = a → port rb = b →
  sync_index ra = sync_index rb → point_id ra = point_id rb →
  is_Some (virtual_table builder triangulator StereoPointsPacket_to_table
             camera_array point_data).
Proof.
  intros Hm Hpair Hra Hrb Hpa Hpb Hs Hid.
  destruct (elem_of_combinations2 _ _ _ Hpair) as [Ha Hb].
  assert (remap point_data = remap_row m <$> point_data) as Hremap
    by (unfold remap; by rewrite Hm).
  apply not_eq_None_Some. unfold virtual_table. rewrite append_packets_None.
  intros [_ Hall].
  destruct (packet_is_Some (virtual_sync_packet camera_array point_data)
              a b (encode m (sync_index ra) (point_id ra)) _ _ _ _
              (lookup_frame_packets_for _ _ _ Ha) (lookup_frame_packets_for _ _ _ Hb)
              (points_of_virtual_frame_packet _ _) (points_of_virtual_frame_packet _ _))
    as [packet Hpacket].
  - rewrite Hremap, filter_port_remap_row, <- list_fmap_compose.
    apply (list_elem_of_fmap_2 (point_id ∘ remap_row m)).
    by apply list_elem_of_filter.
  - rewrite Hremap, filter_port_remap_row, <- list_fmap_compose, Hs, Hid.
    apply (list_elem_of_fmap_2 (point_id ∘ remap_row m)).
    by apply list_elem_of_filter.
  - specialize (Hall (triangulate_pair camera_array (a, b)
                        <$> get_stereo_points_packet
                              (virtual_sync_packet camera_array point_data) (a, b))).
    rewrite Hpacket in Hall. discriminate Hall.
    unfold virtual_stereo_points. rewrite packets_met_of_spec, <- Hpacket.
    by apply (list_elem_of_fmap_2
                (λ pair, triangulate_pair camera_array pair
                           <$> get_stereo_points_packet _ pair)).
Qed.

(** C1, as the code has it. On a table of non-negative point identifiers
    whose encoding does not leave the 64-bit range, and in which two cameras
    of some pair share a point identifier at some synchronization index, both
    modes return a table, and the two tables have the same rows up to their
    order: the same camera pair, original synchronization index, point
    identifier, image locations and triangulated coordinate. *)
Theorem modes_agree_modulo_order (camera_array : CameraArray) (point_data_path : Path)
    (point_data : list Row) (a b : Z) (ra rb : Row) :
  Forall (λ r, 0 ≤ point_id r) point_data →
  no_overflow point_data →
  (a, b) ∈ combinations2 (ports_of camera_array) →
  ra ∈ point_data → rb ∈ point_data →
  port ra = a → port rb = b →
  sync_index ra = sync_index rb → point_id ra = point_id rb →
  ∃ t1 t2 : list OutRow,
    (per_bundle_mode camera_array point_data_path point_data).2 = inr (Frame t1)
    ∧ (batched_mode camera_array point_data_path point_data).2 = inr (Frame t2)
    ∧ t1 ≡ₚ t2.
Proof.
  intros Hnonneg Hfit Hpair Hra Hrb Hpa Hpb Hs Hid.
  destruct (point_id_multiplier_of_cons ra point_data Hra) as [m Hm].
  destruct (no_overflow_encodable _ _ Hnonneg Hfit Hm) as [Hpos Hrange].
  assert (m ≠ 0) as Hm0 by lia.
  destruct (shared_point_bundle camera_array point_data a b ra rb) as [t1 Ht1];
    [done..|].
  destruct (shared_point_virtual camera_array point_data m a b ra rb) as [rows Hrows];
    [done..|].
  pose proof (tables_permutation camera_array point_data m Hm Hrange Hm0) as Hperm.
  rewrite Ht1, Hrows in Hperm. cbn [default] in Hperm.
  exists t1, (restore_row m <$> rows). split_and!; [| |done].
  - unfold per_bundle_mode. rewrite original_run. cbn [snd]. by rewrite Ht1.
  - unfold batched_mode. rewrite batched_run, Hrows, Hm. done.
Qed.

End SpecModelFacts.

End Properties.

(** * Properties of the live stream *)

Section LiveStreamFacts.

Context {Subscriber : Type} `{EqDecision Subscriber}.

Lemma elem_of_subscribe (subscribers : list Subscriber) (x y : Subscriber) :
  y ∈ LiveStream.subscribe subscribers x ↔ y = x ∨ y ∈ subscribers.
Proof.
  unfold LiveStream.subscribe. destruct (decide (x ∈ subscribers)).
  - split; [by right|]. by intros [->|?].
  - rewrite elem_of_app, list_elem_of_singleton. tauto.
Qed.

Lemma NoDup_subscribe (subscribers : list Subscriber) (x : Subscriber) :
  NoDup subscribers → NoDup (LiveStream.subscribe subscribers x).
Proof.
  intros Hs. unfold LiveStream.subscribe.
  destruct (decide (x ∈ subscribers)); [done|].
  apply NoDup_app. split_and!; [done| |apply NoDup_singleton].
  intros y Hy ->%list_elem_of_singleton. done.
Qed.

Lemma list_remove_spec (x : Subscriber) (l : list Subscriber) :
  x ∈ l → NoDup l →
  ∃ l', LiveStream.list_remove x l = Some l' ∧ NoDup l'
        ∧ ∀ y, y ∈ l' ↔ y ∈ l ∧ y ≠ x.
Proof.
  induction l as [|z l IH]; [by intros ?%elem_of_nil|].
  intros Hx Hl. apply NoDup_cons in Hl as [Hz Hl]. cbn [LiveStream.list_remove].
  destruct (decide (z = x)) as [->|Hne].
  - exists l. split_and!; [done..|]. intros y. rewrite elem_of_cons. split.
    + intros Hy. split; [by right|]. by intros ->.
    + by intros [[->|?] ?].
  - apply elem_of_cons in Hx as [->|Hx]; [done|].
    destruct (IH Hx Hl) as (l' & -> & Hl' & Hin). exists (z :: l').
    split_and!; [done| |].
    + apply NoDup_cons. split; [|done]. rewrite Hin. tauto.
    + intros y. rewrite !elem_of_cons, Hin. split.
      * intros [->|[? ?]]; [split; [by left|done]|split; [by right|done]].
      * intros [[->|?] ?]; [by left|by right].
Qed.

Lemma unsubscribe_spec (subscribers : list Subscriber) (x : Subscriber) :
  NoDup subscribers →
  NoDup (LiveStream.unsubscribe subscribers x)
  ∧ ∀ y, y ∈ LiveStream.unsubscribe subscribers x ↔ y ∈ subscribers ∧ y ≠ x.
Proof.
  intros Hs. unfold LiveStream.unsubscribe.
  destruct (decide (x ∈ subscribers)) as [Hx|Hx].
  - destruct (list_remove_spec x subscribers Hx Hs) as (l' & -> & ? & ?). done.
  - split; [done|]. intros y. split; [|tauto].
    intros Hy. split; [done|]. by intros ->.
Qed.

(** X9. Whatever calls of [subscribe] and [unsubscribe] a stream has
    received since its creation, no subscriber is listed twice, and a
    subscriber is listed exactly when the last call that named it was a
    subscription. *)
Theorem subscribers_follow_last_call (calls : list (@LiveStream.Call Subscriber)) :
  NoDup (LiveStream.after_calls calls)
  ∧ ∀ x, x ∈ LiveStream.after_calls calls
         ↔ LiveStream.last_call_subscribes x calls = true.
Proof.
  unfold LiveStream.after_calls, LiveStream.last_call_subscribes.
  induction calls as [|c calls [IHnodup IHin]] using rev_ind.
  - split; [constructor|]. intros x. cbn. split; [by intros ?%elem_of_nil|done].
  - rewrite !foldl_snoc. destruct c as [y|y]; cbn [LiveStream.call].
    + split; [by apply NoDup_subscribe|]. intros x.
      rewrite elem_of_subscribe, IHin, foldl_snoc.
      destruct (decide (y = x)) as [->|?]; [tauto|]. split; [|tauto].
      by intros [->|?].
    + destruct (unsubscribe_spec _ y IHnodup) as [Hnodup Hin].
      split; [done|]. intros x. rewrite Hin, IHin, foldl_snoc.
      destruct (decide (y = x)) as [->|?]; [|split; [tauto|]].
      * split; [by intros [_ ?]|done].
      * intros ?. split; [done|]. by intros ->.
Qed.

Lemma list_remove_snoc (x : Subscriber) (l : list Subscriber) :
  x ∉ l → LiveStream.list_remove x (l ++ [x]) = Some l.
Proof.
  induction l as [|z l IH]; intros Hx; cbn [app LiveStream.list_remove].
  - by rewrite decide_True.
  - apply not_elem_of_cons in Hx as [Hne Hx].
    rewrite decide_False by done. by rewrite IH.
Qed.

(** X10. For a subscriber that is not listed: subscribing appends it at the
    end, subscribing a second time changes nothing, unsubscribing afterwards
    gives back the list as it was, and unsubscribing without a subscription
    changes nothing. *)
Theorem subscribe_unsubscribe_round_trip (subscribers : list Subscriber)
    (x : Subscriber) :
  x ∉ subscribers →
  LiveStream.subscribe subscribers x = subscribers ++ [x]
  ∧ LiveStream.subscribe (LiveStream.subscribe subscribers x) x
    = LiveStream.subscribe subscribers x
  ∧ LiveStream.unsubscribe (LiveStream.subscribe subscribers x) x = subscribers
  ∧ LiveStream.unsubscribe subscribers x = subscribers.
Proof.
  intros Hx.
  assert (LiveStream.subscribe subscribers x = subscribers ++ [x]) as Hsub
    by (unfold LiveStream.subscribe; by rewrite decide_False).
  assert (x ∈ subscribers ++ [x]) as Hin
    by (apply elem_of_app; right; left).
  split_and!.
  - done.
  - rewrite Hsub. unfold LiveStream.subscribe. by rewrite decide_True.
  - rewrite Hsub. unfold LiveStream.unsubscribe.
    by rewrite decide_True, list_remove_snoc.
  - unfold LiveStream.unsubscribe. by rewrite decide_False.
Qed.

End LiveStreamFacts.

(** X11. [set_nearest_fps] returns the largest of the rates 5, 10, 15, 20
    and 30 that is strictly below the actual rate; it returns [None] exactly
    when the actual rate is at most 5, or at least 1030 (the initial bound
    1000 on the distance then excludes every rate). *)
Theorem set_nearest_fps_spec (actual_fps : Z) :
  (LiveStream.set_nearest_fps actual_fps = None
   ↔ actual_fps ≤ 5 ∨ 1030 ≤ actual_fps)
  ∧ ∀ d, LiveStream.set_nearest_fps actual_fps = Some d →
         d ∈ LiveStream.fps_divisions ∧ d < actual_fps
         ∧ ∀ d', d' ∈ LiveStream.fps_divisions → d' < actual_fps → d' ≤ d.
Proof.
  assert (∀ d', d' ∈ LiveStream.fps_divisions →
                d' = 5 ∨ d' = 10 ∨ d' = 15 ∨ d' = 20 ∨ d' = 30) as Hdiv.
  { intros d' Hd'. unfold LiveStream.fps_divisions in Hd'.
    repeat (apply elem_of_cons in Hd' as [->|Hd']; [tauto|]).
    by apply elem_of_nil in Hd'. }
  unfold LiveStream.set_nearest_fps. cbn.
  repeat (case_decide; cbn);
    (split;
     [split; intros Hnone; first [discriminate Hnone|lia|reflexivity|exfalso; lia]
     |intros d Hd; first
        [discriminate Hd
        |injection Hd as <-; split_and!;
         [repeat constructor|lia
         |intros d' Hd' ?; destruct (Hdiv d' Hd') as [->|[->|[->|[->| ->]]]]; lia]]]).
Qed.

(** * Properties of the charuco board *)

Section CharucoFacts.

Context {Coord : Type} `{EqDecision Coord}.

Lemma defaultdict_append_fresh {K V : Type} `{EqDecision K}
    (d : list (K * list V)) (k : K) (v : V) :
  k ∉ d.*1 → Charuco.defaultdict_append d k v = d ++ [(k, [v])].
Proof.
  induction d as [|[k' vs] d IH]; intros Hk; [done|].
  cbn [fmap list_fmap fst] in Hk. apply not_elem_of_cons in Hk as [Hne Hk].
  cbn [Charuco.defaultdict_append app]. rewrite decide_False by done.
  by rewrite IH.
Qed.

Lemma defaultdict_append_last {K V : Type} `{EqDecision K}
    (d : list (K * list V)) (k : K) (vs : list V) (v : V) :
  k ∉ d.*1 →
  Charuco.defaultdict_append (d ++ [(k, vs)]) k v = d ++ [(k, vs ++ [v])].
Proof.
  induction d as [|[k' vs'] d IH]; intros Hk.
  - cbn. by rewrite decide_True.
  - cbn [fmap list_fmap fst] in Hk. apply not_elem_of_cons in Hk as [Hne Hk].
    cbn [Charuco.defaultdict_append app]. rewrite decide_False by done.
    by rewrite IH.
Qed.

Lemma inner_loop_present (axis : Charuco.Axis) (coord_of : Coord * Coord → Coord)
    (line : Coord) (items : list (nat * (Coord * Coord)))
    (d : list ((Charuco.Axis * Coord) * list nat)) (vs : list nat) :
  (axis, line) ∉ d.*1 →
  foldl (λ lines (item : nat * (Coord * Coord)),
           if decide (coord_of item.2 = line)
           then Charuco.defaultdict_append lines (axis, line) item.1
           else lines)
        (d ++ [((axis, line), vs)]) items
  = d ++ [((axis, line), vs ++ Charuco.on_line coord_of line items)].
Proof.
  intros Hk. revert vs. unfold Charuco.on_line.
  induction items as [|item items IH]; intros vs; cbn [foldl].
  - by rewrite app_nil_r.
  - rewrite filter_cons. destruct (decide (coord_of item.2 = line)).
    + rewrite defaultdict_append_last by done. rewrite IH.
      cbn [fmap list_fmap]. by rewrite <- app_assoc.
    + apply IH.
Qed.

Lemma inner_loop_fresh (axis : Charuco.Axis) (coord_of : Coord * Coord → Coord)
    (line : Coord) (items : list (nat * (Coord * Coord)))
    (d : list ((Charuco.Axis * Coord) * list nat)) :
  (axis, line) ∉ d.*1 →
  foldl (λ lines (item : nat * (Coord * Coord)),
           if decide (coord_of item.2 = line)
           then Charuco.defaultdict_append lines (axis, line) item.1
           else lines)
        d items
  = d ++ match Charuco.on_line coord_of line items with
         | [] => []
         | ids => [((axis, line), ids)]
         end.
Proof.
  intros Hk. unfold Charuco.on_line.
  induction items as [|item items IH]; cbn [foldl].
  - by rewrite app_nil_r.
  - rewrite filter_cons. destruct (decide (coord_of item.2 = line)).
    + rewrite defaultdict_append_fresh by done.
      by rewrite (inner_loop_present axis coord_of line items d [item.1]).
    + apply IH.
Qed.

Lemma add_lines_spec (axis : Charuco.Axis) (coord_of : Coord * Coord → Coord)
    (line_set : list Coord) (corners : list (Coord * Coord))
    (lines : list ((Charuco.Axis * Coord) * list nat)) :
  NoDup line_set →
  (∀ line, line ∈ line_set → (axis, line) ∉ lines.*1) →
  Charuco.add_lines axis coord_of line_set corners lines
  = lines ++ omap (Charuco.line_item axis coord_of corners) line_set.
Proof.
  unfold Charuco.add_lines. intros Hnodup. revert lines.
  induction Hnodup as [|line line_set Hline Hnodup IH]; intros lines Hfresh;
    cbn [foldl omap list_omap].
  - by rewrite app_nil_r.
  - rewrite inner_loop_fresh by (apply Hfresh; left).
    assert (Charuco.line_item axis coord_of corners line
            = match Charuco.on_line coord_of line (Charuco.enumerate_corners corners) with
              | [] => None
              | ids => Some ((axis, line), ids)
              end) as -> by reflexivity.
    destruct (Charuco.on_line coord_of line (Charuco.enumerate_corners corners))
      as [|i ids] eqn:Hids.
    + rewrite app_nil_r. apply IH. intros line' Hin. apply Hfresh. by right.
    + rewrite IH; [by rewrite <- app_assoc|].
      intros line' Hin. rewrite fmap_app, elem_of_app.
      intros [Hold|Hnew]; [by apply (Hfresh line'); [right|]|].
      cbn in Hnew. apply list_elem_of_singleton in Hnew. congruence.
Qed.

Lemma elem_of_connected (lines : list ((Charuco.Axis * Coord) * list nat))
    (connected : gset (nat * nat)) (pair : nat * nat) :
  pair ∈ foldl (λ connected_corners (item : (Charuco.Axis * Coord) * list nat),
                  foldl (λ connected_corners i, {[i]} ∪ connected_corners)
                        connected_corners (combinations2 item.2))
               connected lines
  ↔ pair ∈ connected ∨ ∃ item, item ∈ lines ∧ pair ∈ combinations2 item.2.
Proof.
  assert (∀ (l : list (nat * nat)) (acc : gset (nat * nat)),
            pair ∈ foldl (λ acc i, {[i]} ∪ acc) acc l ↔ pair ∈ acc ∨ pair ∈ l)
    as Hinner.
  { induction l as [|q l IH]; intros acc; cbn [foldl].
    - rewrite elem_of_nil. tauto.
    - rewrite IH, elem_of_union, elem_of_singleton, elem_of_cons. tauto. }
  revert connected. induction lines as [|item lines IH]; intros connected;
    cbn [foldl].
  - split; [by left|]. intros [?|(? & ?%elem_of_nil & _)]; done.
  - rewrite IH, Hinner. split.
    + intros [[?|?]|(item' & ? & ?)]; [by left|right..].
      * exists item. split; [left|done].
      * exists item'. split; [by right|done].
    + intros [?|(item' & [->|?]%elem_of_cons & ?)].
      * by left; left.
      * by left; right.
      * right. by exists item'.
Qed.

Lemma elem_of_enumerate (corners : list (Coord * Coord)) (a i : nat)
    (c : Coord * Coord) :
  (i, c) ∈ zip (seq a (length corners)) corners
  ↔ (a ≤ i)%nat ∧ corners !! (i - a)%nat = Some c.
Proof.
  revert a. induction corners as [|c' corners IH]; intros a; cbn.
  - rewrite elem_of_nil. split; [done|]. by intros [_ ?].
  - rewrite elem_of_cons, IH. split.
    + intros [[= -> ->]|[Hle Hc]].
      * split; [lia|]. by rewrite Nat.sub_diag.
      * split; [lia|]. by replace (i - a)%nat with (S (i - S a)) by lia.
    + intros [Hle Hc]. destruct (decide (i = a)) as [->|Hne].
      * left. rewrite Nat.sub_diag in Hc. cbn in Hc. congruence.
      * right. split; [lia|].
        by replace (i - a)%nat with (S (i - S a)) in Hc by lia.
Qed.

Lemma elem_of_on_line (coord_of : Coord * Coord → Coord) (line : Coord)
    (corners : list (Coord * Coord)) (i : nat) :
  i ∈ Charuco.on_line coord_of line (Charuco.enumerate_corners corners)
  ↔ ∃ c, corners !! i = Some c ∧ coord_of c = line.
Proof.
  unfold Charuco.on_line, Charuco.enumerate_corners. rewrite list_elem_of_fmap. split.
  - intros ([i' c] & -> & [Hc Hin]%list_elem_of_filter).
    apply elem_of_enumerate in Hin as [_ Hin]. rewrite Nat.sub_0_r in Hin.
    by exists c.
  - intros (c & Hi & Hc). exists (i, c). split; [done|].
    apply list_elem_of_filter. split; [done|].
    apply elem_of_enumerate. rewrite Nat.sub_0_r. split; [lia|done].
Qed.

Lemma sorted_seq (a n : nat) : StronglySorted lt (seq a n).
Proof.
  revert a. induction n as [|n IH]; intros a; cbn; constructor; [apply IH|].
  apply Forall_forall. intros i Hi%list_elem_of_In%in_seq. lia.
Qed.

Lemma sorted_on_line (coord_of : Coord * Coord → Coord) (line : Coord)
    (corners : list (Coord * Coord)) :
  StronglySorted lt (Charuco.on_line coord_of line (Charuco.enumerate_corners corners)).
Proof.
  unfold Charuco.on_line, Charuco.enumerate_corners.
  assert (∀ items : list (nat * (Coord * Coord)),
            StronglySorted lt items.*1 →
            StronglySorted lt (filter (λ item, coord_of item.2 = line) items).*1)
    as Hfilter.
  { induction items as [|item items IH]; [done|].
    cbn [fmap list_fmap]. intros Hs. apply StronglySorted_inv in Hs as [Hs Hall].
    rewrite filter_cons. destruct (decide (coord_of item.2 = line)); [|by apply IH].
    cbn [fmap list_fmap]. constructor; [by apply IH|].
    rewrite Forall_forall in Hall. apply Forall_forall.
    intros i (item' & -> & [_ Hin]%list_elem_of_filter)%list_elem_of_fmap.
    apply Hall. by apply list_elem_of_fmap_2. }
  apply Hfilter. rewrite fst_zip by (rewrite length_seq; lia). apply sorted_seq.
Qed.

Lemma elem_of_combinations2_sorted (ids : list nat) (i j : nat) :
  StronglySorted lt ids →
  (i, j) ∈ combinations2 ids ↔ (i < j)%nat ∧ i ∈ ids ∧ j ∈ ids.
Proof.
  induction 1 as [|a ids Hs IH Hall]; cbn [combinations2].
  - rewrite !elem_of_nil. tauto.
  - rewrite Forall_forall in Hall.
    rewrite elem_of_app, list_elem_of_fmap, IH, !elem_of_cons. split.
    + intros [(b & [= -> ->] & Hb)|(? & ? & ?)]; [|tauto].
      split_and!; [by apply Hall|by left|by right].
    + intros (Hlt & [->|Hi] & [->|Hj]); [lia| | |tauto].
      * left. by exists j.
      * specialize (Hall i Hi). lia.
Qed.

(** X12. [get_connected_points], whatever the orders in which the sets of
    line positions are iterated: a pair (i, j) of corner identifiers is in
    the returned set exactly when i < j, both are identifiers of corners of
    the board, and the two corners have the same x or the same y.  So a
    corner is never connected to itself, and a connection is never listed in
    both directions. *)
Theorem connected_points_spec (x_set y_set : list Coord)
    (corners : list (Coord * Coord)) (i j : nat) :
  x_set ≡ₚ remove_dups corners.*1 →
  y_set ≡ₚ remove_dups corners.*2 →
  (i, j) ∈ Charuco.get_connected_points_with x_set y_set corners
  ↔ (i < j)%nat
    ∧ ∃ ci cj, corners !! i = Some ci ∧ corners !! j = Some cj
               ∧ (ci.1 = cj.1 ∨ ci.2 = cj.2).
Proof.
  intros Hx Hy.
  assert (NoDup x_set) as Hnx by (rewrite Hx; apply NoDup_remove_dups).
  assert (NoDup y_set) as Hny by (rewrite Hy; apply NoDup_remove_dups).
  assert (∀ v, v ∈ x_set ↔ v ∈ corners.*1) as Hinx
    by (intros v; by rewrite Hx, elem_of_remove_dups).
  assert (∀ v, v ∈ y_set ↔ v ∈ corners.*2) as Hiny
    by (intros v; by rewrite Hy, elem_of_remove_dups).
  assert (∀ axis coord_of (line_set : list Coord) item,
            item ∈ omap (Charuco.line_item axis coord_of corners) line_set →
            item.1.1 = axis ∧ item.1.2 ∈ line_set
            ∧ item.2 = Charuco.on_line coord_of item.1.2 (Charuco.enumerate_corners corners))
    as Hitem.
  { intros axis coord_of line_set item (line & Hline & Hsome)%list_elem_of_omap.
    unfold Charuco.line_item in Hsome.
    destruct (Charuco.on_line coord_of line _) eqn:Hids; [done|].
    injection Hsome as <-. cbn. by rewrite Hids. }
  unfold Charuco.get_connected_points_with.
  rewrite (add_lines_spec Charuco.AxisX fst x_set corners []) by
    (done || (intros ? _ ?%elem_of_nil; done)).
  rewrite (add_lines_spec Charuco.AxisY snd y_set corners); [|done|].
  2:{ intros line _ (item & Hkey & Hin)%list_elem_of_fmap. cbn [app] in Hin.
      apply Hitem in Hin as (Haxis & _). rewrite <- Hkey in Haxis. done. }
  cbn [app]. rewrite elem_of_connected. split.
  - intros [?%elem_of_empty|(item & Hin & Hpair)]; [done|].
    apply elem_of_app in Hin as [Hin|Hin]; apply Hitem in Hin as (_ & _ & Hids);
      rewrite Hids in Hpair;
      apply elem_of_combinations2_sorted in Hpair as (Hlt & Hi & Hj);
      try apply sorted_on_line;
      apply elem_of_on_line in Hi as (ci & Hci & Hli), Hj as (cj & Hcj & Hlj);
      (split; [done|]); exists ci, cj; (split_and!; [done..|]).
    + left. congruence.
    + right. congruence.
  - intros (Hlt & ci & cj & Hci & Hcj & Hsame). right.
    assert (∀ axis coord_of (line_set : list Coord),
              coord_of ci = coord_of cj → coord_of ci ∈ line_set →
              ∃ item, item ∈ omap (Charuco.line_item axis coord_of corners) line_set
                      ∧ (i, j) ∈ combinations2 item.2) as Hfind.
    { intros axis coord_of line_set Heq Hline.
      assert (i ∈ Charuco.on_line coord_of (coord_of ci) (Charuco.enumerate_corners corners))
        as Hi by (apply elem_of_on_line; by exists ci).
      assert (j ∈ Charuco.on_line coord_of (coord_of ci) (Charuco.enumerate_corners corners))
        as Hj by (apply elem_of_on_line; by exists cj).
      exists ((axis, coord_of ci),
              Charuco.on_line coord_of (coord_of ci) (Charuco.enumerate_corners corners)).
      split.
      - apply list_elem_of_omap. exists (coord_of ci). split; [done|].
        unfold Charuco.line_item. destruct (Charuco.on_line coord_of (coord_of ci) _);
          [by apply elem_of_nil in Hi|done].
      - apply elem_of_combinations2_sorted; [apply sorted_on_line|done]. }
    destruct Hsame as [Hsame|Hsame].
    + destruct (Hfind Charuco.AxisX fst x_set Hsame) as (item & Hin & Hpair).
      { apply Hinx. apply list_elem_of_fmap. exists ci. split; [done|].
        by eapply list_elem_of_lookup_2. }
      exists item. split; [|done]. apply elem_of_app. by left.
    + destruct (Hfind Charuco.AxisY snd y_set Hsame) as (item & Hin & Hpair).
      { apply Hiny. apply list_elem_of_fmap. exists ci. split; [done|].
        by eapply list_elem_of_lookup_2. }
      exists item. split; [|done]. apply elem_of_app. by right.
Qed.

End CharucoFacts.

(** * Properties of the recording widget *)

Lemma timeouts_S (k : nat) (w : RecordSingleCamera.Widget) :
  RecordSingleCamera.countdown_timer_active w = true →
  1 < RecordSingleCamera.current_countdown_value w →
  RecordSingleCamera.timeouts (S k) w
  = RecordSingleCamera.timeouts k
      {| RecordSingleCamera.current_action := RecordSingleCamera.current_action w;
         RecordSingleCamera.current_countdown_value :=
           RecordSingleCamera.current_countdown_value w - 1;
         RecordSingleCamera.countdown_duration_spin :=
           RecordSingleCamera.countdown_duration_spin w;
         RecordSingleCamera.countdown_timer_active :=
           RecordSingleCamera.countdown_timer_active w;
         RecordSingleCamera.start_stop_button_text :=
           RecordSingleCamera.CountdownText
             (RecordSingleCamera.current_countdown_value w - 1);
         RecordSingleCamera.start_stop_button_enabled :=
           RecordSingleCamera.start_stop_button_enabled w;
         RecordSingleCamera.countdown_beeps :=
           if decide (RecordSingleCamera.current_countdown_value w - 1 ≤ 3)
           then S (RecordSingleCamera.countdown_beeps w)
           else RecordSingleCamera.countdown_beeps w |}.
Proof.
  intros Hactive Hvalue. cbn [RecordSingleCamera.timeouts]. rewrite Hactive.
  unfold RecordSingleCamera.update_countdown_display. cbv zeta.
  rewrite decide_True by lia. by rewrite ?Hactive.
Qed.

Lemma timeouts_last (w : RecordSingleCamera.Widget) :
  RecordSingleCamera.countdown_timer_active w = true →
  RecordSingleCamera.current_countdown_value w ≤ 1 →
  ∃ w', RecordSingleCamera.timeouts 1 w = RecordSingleCamera.StartActualRecording w'
        ∧ RecordSingleCamera.countdown_timer_active w' = false
        ∧ RecordSingleCamera.countdown_beeps w' = RecordSingleCamera.countdown_beeps w.
Proof.
  intros Hactive Hvalue. cbn [RecordSingleCamera.timeouts]. rewrite Hactive.
  unfold RecordSingleCamera.update_countdown_display. cbv zeta.
  rewrite decide_False by lia. by eexists.
Qed.

Lemma timeouts_snoc (m : nat) (w0 w' : RecordSingleCamera.Widget) :
  RecordSingleCamera.timeouts m w0 = RecordSingleCamera.Done w' →
  RecordSingleCamera.timeouts (S m) w0 = RecordSingleCamera.timeouts 1 w'.
Proof.
  assert (∀ n w,
            RecordSingleCamera.timeouts (S n) w
            = if RecordSingleCamera.countdown_timer_active w
              then match RecordSingleCamera.update_countdown_display w with
                   | RecordSingleCamera.Done w' => RecordSingleCamera.timeouts n w'
                   | outcome => outcome
                   end
              else RecordSingleCamera.Done w) as Hunfold by reflexivity.
  revert w0. induction m as [|m IH]; intros w0 Hm.
  - cbn in Hm. by injection Hm as ->.
  - rewrite Hunfold in Hm. rewrite (Hunfold (S m)).
    destruct (RecordSingleCamera.countdown_timer_active w0) eqn:Ha.
    + destruct (RecordSingleCamera.update_countdown_display w0) as [w0'| |];
        [|done..]. by apply IH.
    + injection Hm as <-. by rewrite Hunfold, Ha.
Qed.

Lemma timeouts_counting (k : nat) (w : RecordSingleCamera.Widget) :
  RecordSingleCamera.countdown_timer_active w = true →
  Z.of_nat k < RecordSingleCamera.current_countdown_value w →
  ∃ w', RecordSingleCamera.timeouts k w = RecordSingleCamera.Done w'
        ∧ RecordSingleCamera.current_countdown_value w'
          = RecordSingleCamera.current_countdown_value w - Z.of_nat k
        ∧ RecordSingleCamera.current_action w' = RecordSingleCamera.current_action w
        ∧ RecordSingleCamera.countdown_timer_active w' = true
        ∧ RecordSingleCamera.start_stop_button_enabled w'
          = RecordSingleCamera.start_stop_button_enabled w
        ∧ RecordSingleCamera.countdown_beeps w'
          = (RecordSingleCamera.countdown_beeps w
             + Z.to_nat (Z.min (Z.of_nat k)
                           (Z.max 0 (Z.of_nat k + 4
                                     - RecordSingleCamera.current_countdown_value w))))%nat.
Proof.
  revert w. induction k as [|k IH]; intros w Hactive Hvalue.
  - exists w. split_and!; [done| |done..|]; [lia|].
    replace (Z.min _ _) with 0 by lia. cbn. lia.
  - rewrite timeouts_S by (done || lia).
    match goal with
    | |- context [RecordSingleCamera.timeouts k ?w0] =>
        destruct (IH w0) as (w' & -> & Hv & ? & ? & ? & Hbeeps);
          [done|cbn -[Z.of_nat]; lia|]
    end.
    cbn -[Z.of_nat Z.min Z.max] in Hv, Hbeeps |- *.
    exists w'. split_and!; [done|lia|done..|].
    rewrite Hbeeps. case_decide; lia.
Qed.

(** X13. Pressing the button in the state START_RECORDING with a countdown
    of n + 1 seconds starts the countdown: the button stays enabled and shows
    the seconds left; after k <= n timeouts of the timer the widget is still
    counting down, with n + 1 - k seconds left; the timeout number n + 1
    stops the timer and goes on into [_start_actual_recording], and by then
    the countdown beep has been played min(n, 3) times. *)
Theorem countdown_runs_to_recording (w : RecordSingleCamera.Widget) (n k : nat) :
  RecordSingleCamera.current_action w = RecordSingleCamera.START_RECORDING →
  RecordSingleCamera.countdown_duration_spin w = Z.of_nat (S n) →
  (k ≤ n)%nat →
  ∃ w1 wk w2,
    RecordSingleCamera.toggle_start_stop w = RecordSingleCamera.Done w1
    ∧ RecordSingleCamera.current_action w1 = RecordSingleCamera.COUNTDOWN
    ∧ RecordSingleCamera.countdown_timer_active w1 = true
    ∧ RecordSingleCamera.start_stop_button_enabled w1 = true
    ∧ RecordSingleCamera.start_stop_button_text w1
      = RecordSingleCamera.CountdownText (Z.of_nat (S n))
    ∧ RecordSingleCamera.timeouts k w1 = RecordSingleCamera.Done wk
    ∧ RecordSingleCamera.current_action wk = RecordSingleCamera.COUNTDOWN
    ∧ RecordSingleCamera.current_countdown_value wk = Z.of_nat (S n) - Z.of_nat k
    ∧ RecordSingleCamera.countdown_timer_active wk = true
    ∧ RecordSingleCamera.timeouts (S n) w1 = RecordSingleCamera.StartActualRecording w2
    ∧ RecordSingleCamera.countdown_timer_active w2 = false
    ∧ RecordSingleCamera.countdown_beeps w2
      = (RecordSingleCamera.countdown_beeps w + Nat.min n 3)%nat.
Proof.
  intros Haction Hspin Hk.
  unfold RecordSingleCamera.toggle_start_stop. rewrite Haction, Hspin.
  rewrite decide_True by lia. cbn -[Z.of_nat].
  set (w1 := RecordSingleCamera.mkWidget _ _ _ _ _ _ _).
  destruct (timeouts_counting k w1) as (wk & Hwk & ? & ? & ? & _);
    [done|cbn -[Z.of_nat]; lia|].
  destruct (timeouts_counting n w1) as (wn & Hwn & Hvn & _ & Hactive & _ & Hbeeps);
    [done|cbn -[Z.of_nat]; lia|].
  destruct (timeouts_last wn) as (w2 & Hw2 & ? & Hb2);
    [done|rewrite Hvn; cbn -[Z.of_nat]; lia|].
  exists w1, wk, w2. split_and!; try done.
  - change (RecordSingleCamera.timeouts (S n) w1
            = RecordSingleCamera.StartActualRecording w2).
    by rewrite (timeouts_snoc n w1 wn Hwn).
  - rewrite Hb2, Hbeeps. cbn -[Z.of_nat Z.min Z.max]. lia.
Qed.

(** X14. Pressing the button again during the countdown cancels it: the
    widget is back in the state START_RECORDING with the button enabled and
    the timer stopped, so that no later timeout changes anything and no
    recording starts.  In the states SAVING and SELECT_CAMERA a press changes
    nothing, and [update_button_state] leaves the button disabled in exactly
    these two states. *)
Theorem countdown_cancel (w : RecordSingleCamera.Widget) (n k m : nat) :
  RecordSingleCamera.current_action w = RecordSingleCamera.START_RECORDING →
  RecordSingleCamera.countdown_duration_spin w = Z.of_nat (S n) →
  (k ≤ n)%nat →
  ∃ w1 wk w2,
    RecordSingleCamera.toggle_start_stop w = RecordSingleCamera.Done w1
    ∧ RecordSingleCamera.timeouts k w1 = RecordSingleCamera.Done wk
    ∧ RecordSingleCamera.toggle_start_stop wk = RecordSingleCamera.Done w2
    ∧ RecordSingleCamera.current_action w2 = RecordSingleCamera.START_RECORDING
    ∧ RecordSingleCamera.countdown_timer_active w2 = false
    ∧ RecordSingleCamera.start_stop_button_enabled w2 = true
    ∧ RecordSingleCamera.start_stop_button_text w2
      = RecordSingleCamera.ActionText RecordSingleCamera.START_RECORDING
    ∧ RecordSingleCamera.timeouts m w2 = RecordSingleCamera.Done w2
    ∧ (∀ w0, RecordSingleCamera.current_action w0 = RecordSingleCamera.SAVING
             ∨ RecordSingleCamera.current_action w0 = RecordSingleCamera.SELECT_CAMERA →
             RecordSingleCamera.toggle_start_stop w0 = RecordSingleCamera.Done w0)
    ∧ (∀ w0, RecordSingleCamera.start_stop_button_enabled
               (RecordSingleCamera.update_button_state w0) = false
             ↔ RecordSingleCamera.current_action w0 = RecordSingleCamera.SAVING
               ∨ RecordSingleCamera.current_action w0
                 = RecordSingleCamera.SELECT_CAMERA).
Proof.
  intros Haction Hspin Hk.
  unfold RecordSingleCamera.toggle_start_stop at 1. rewrite Haction, Hspin.
  rewrite decide_True by lia. cbn -[Z.of_nat].
  set (w1 := RecordSingleCamera.mkWidget _ _ _ _ _ _ _).
  destruct (timeouts_counting k w1) as (wk & Hwk & ? & Hact & _);
    [done|cbn -[Z.of_nat]; lia|].
  exists w1, wk. eexists. split_and!.
  - done.
  - done.
  - unfold RecordSingleCamera.toggle_start_stop. rewrite Hact. reflexivity.
  - done.
  - done.
  - done.
  - done.
  - destruct m; reflexivity.
  - intros w0 [Hw0|Hw0]; unfold RecordSingleCamera.toggle_start_stop;
      by rewrite Hw0.
  - intros w0. unfold RecordSingleCamera.update_button_state.
    destruct (RecordSingleCamera.current_action w0); cbn; split;
      first [done|tauto|by intros [?|?]].
Qed.

(** * The concrete runs *)

(** C1 fails as stated.  On [table_disjoint] the per-bundle mode returns the
    empty table and the batched mode raises; on [table_negative] both return,
    the per-bundle mode the empty table and the batched mode a row for a
    point that the two cameras never shared; on [table_overflow] both return,
    the per-bundle mode a row for each of the two synchronization indices and
    the batched mode one row only, the two detections having been merged
    under the combined identifier 0. *)
Lemma modes_disagree :
  ((per_bundle_mode example_camera_array example_path table_disjoint).2
     = inr EmptyFrame
   ∧ (batched_mode example_camera_array example_path table_disjoint).2
     = inl (KeyError "point_id"))
  ∧ ((per_bundle_mode example_camera_array example_path table_negative).2
       = inr EmptyFrame
     ∧ (batched_mode example_camera_array example_path table_negative).2
       = inr (Frame [ {| out_sync_index := 0; out_port_a := 0; out_port_b := 1;
                         out_point_id := 1;
                         out_img_loc_a := (1, 0); out_img_loc_b := (9, 1);
                         out_xyz := (1, 9, 0) |} ]))
  ∧ ((per_bundle_mode example_camera_array example_path table_overflow).2
       = inr (Frame [ {| out_sync_index := 0; out_port_a := 0; out_port_b := 1;
                         out_point_id := 0;
                         out_img_loc_a := (0, 0); out_img_loc_b := (10, 0);
                         out_xyz := (0, 10, 0) |};
                      {| out_sync_index := 4611686018427387904;
                         out_port_a := 0; out_port_b := 1;
                         out_point_id := 0;
                         out_img_loc_a := (0, 4611686018427387904);
                         out_img_loc_b := (10, 4611686018427387904);
                         out_xyz := (0, 10, 4611686018427387904) |} ])
     ∧ (batched_mode example_camera_array example_path table_overflow).2
       = inr (Frame [ {| out_sync_index := 0; out_port_a := 0; out_port_b := 1;
                         out_point_id := 0;
                         out_img_loc_a := (0, 0); out_img_loc_b := (10, 0);
                         out_xyz := (0, 10, 0) |} ]))
  ∧ (per_bundle_mode example_camera_array example_path table_disjoint).2
    ≠ (batched_mode example_camera_array example_path table_disjoint).2
  ∧ (per_bundle_mode example_camera_array example_path table_negative).2
    ≠ (batched_mode example_camera_array example_path table_negative).2
  ∧ (per_bundle_mode example_camera_array example_path table_overflow).2
    ≠ (batched_mode example_camera_array example_path table_overflow).2.
Proof. vm_compute. split_and!; done. Qed.

(** C2 fails as stated.  In [table_overflow] the largest point identifier
    is 3; for the synchronization index 2^62 and the point identifier 0, both
    non-negative, the combined identifier is stored as 0 and decodes to
    (0, 0). *)
Lemma round_trip_wraps :
  max_point_id_of (point_id <$> table_overflow) = Some 3
  ∧ point_id_multiplier_of table_overflow = Some (3 + 1)
  ∧ detection 4611686018427387904 0 0 ∈ table_overflow
  ∧ 0 ≤ 4611686018427387904 ∧ 0 ≤ 0 ≤ 3
  ∧ encode (3 + 1) 4611686018427387904 0 = 0
  ∧ decode (3 + 1) (encode (3 + 1) 4611686018427387904 0) = (0, 0)
  ∧ decode (3 + 1) (encode (3 + 1) 4611686018427387904 0)
    ≠ (4611686018427387904, 0).
Proof.
  split_and!; try (vm_compute; done).
  vm_compute. repeat constructor.
Qed.

(** C2 at the table [table_shared] (largest identifier 7), for the
    synchronization index 3 and the point identifier 5. *)
Lemma decode_encode_round_trip_witness :
  point_id_multiplier_of table_shared = Some (7 + 1)
  ∧ encode (7 + 1) 3 5 = 3 * (7 + 1) + 5
  ∧ decode (7 + 1) (encode (7 + 1) 3 5) = (3, 5)
  ∧ (3 * (7 + 1) + 5) / (7 + 1) = 3
  ∧ (3 * (7 + 1) + 5) mod (7 + 1) = 5.
Proof.
  apply (decode_encode_round_trip table_shared 7 3 5);
    [reflexivity|unfold int64_max; lia..].
Defined.

(** C8 fails as stated.  The point identifiers of [table_overflow] are
    non-negative, and its rows (0, 0) and (2^62, 0) of camera 0 get the same
    combined identifier under the multiplier 4. *)
Lemma encoding_collides_on_overflow :
  Forall (λ r, 0 ≤ point_id r) table_overflow
  ∧ point_id_multiplier_of table_overflow = Some 4
  ∧ detection 0 0 0 ∈ table_overflow
  ∧ detection 4611686018427387904 0 0 ∈ table_overflow
  ∧ (sync_index (detection 0 0 0), point_id (detection 0 0 0))
    ≠ (sync_index (detection 4611686018427387904 0 0),
       point_id (detection 4611686018427387904 0 0))
  ∧ point_id (remap_row 4 (detection 0 0 0))
    = point_id (remap_row 4 (detection 4611686018427387904 0 0))
  ∧ (point_id <$> remap table_overflow) = [0; 0; 3; 0; 0].
Proof.
  split_and!.
  - repeat constructor; vm_compute; discriminate.
  - reflexivity.
  - vm_compute. repeat constructor.
  - vm_compute. repeat constructor.
  - vm_compute. discriminate.
  - reflexivity.
  - reflexivity.
Qed.

(** C8 at two rows of [table_shared]. *)
Lemma encoding_collision_free_witness :
  point_id (detection 0 0 7) < 8 ∧ point_id (detection 1 0 2) < 8
  ∧ point_id (remap_row 8 (detection 0 0 7)) ≠ point_id (remap_row 8 (detection 1 0 2)).
Proof.
  apply (encoding_collision_free table_shared 8 (detection 0 0 7) (detection 1 0 2)).
  - repeat constructor; vm_compute; discriminate.
  - split; [reflexivity|]. repeat constructor; vm_compute; discriminate.
  - reflexivity.
  - vm_compute. repeat constructor.
  - vm_compute. repeat constructor.
  - vm_compute. discriminate.
Defined.

(** C1 at [table_shared]: cameras 0 and 1 share point 7 at index 0. *)
Lemma modes_agree_modulo_order_witness :
  ∃ t1 t2 : list OutRow,
    (per_bundle_mode example_camera_array example_path table_shared).2 = inr (Frame t1)
    ∧ (batched_mode example_camera_array example_path table_shared).2 = inr (Frame t2)
    ∧ t1 ≡ₚ t2.
Proof.
  apply (modes_agree_modulo_order example_camera_array example_path table_shared
           0 1 (detection 0 0 7) (detection 0 1 7)).
  - repeat constructor; vm_compute; discriminate.
  - split; [reflexivity|]. repeat constructor; vm_compute; discriminate.
  - vm_compute. repeat constructor.
  - vm_compute. repeat constructor.
  - vm_compute. repeat constructor.
  - reflexivity.
  - reflexivity.
  - reflexivity.
  - reflexivity.
Defined.



(** C5 at [table_shared], per-bundle mode: port 2 has no row at index 1 and
    its entry in the SyncPacket of index 1 is there, and is [None]. *)
Lemma sync_bundle_covers_ports_witness :
  ∃ entry : option FramePacket,
    sp_frame_packets (bundle_sync_packet example_camera_array table_shared 1) !! 2
    = Some entry
    ∧ (entry = None
       ↔ ∀ r, r ∈ table_shared →
              sync_index r
              = sp_sync_index (bundle_sync_packet example_camera_array table_shared 1) →
              port r ≠ 2).
Proof.
  apply (sync_bundle_covers_ports
           StereoPointsBuilder_get_synched_paired_points
           ArrayStereoTriangulator_triangulate_synched_points
           StereoPointsPacket_to_table
           PerBundle example_camera_array example_path table_shared).
  - apply sync_packet_of_original. exists 1. split; [|reflexivity].
    vm_compute. repeat constructor.
  - vm_compute. repeat constructor.
Defined.

(** C6 at the single bundle of the batched mode on [table_shared]: the pair
    (0, 2) has no packet. *)
Lemma null_pair_skipped_witness :
  collect_pair StereoPointsPacket_to_table
    (virtual_stereo_points StereoPointsBuilder_get_synched_paired_points
       ArrayStereoTriangulator_triangulate_synched_points
       example_camera_array table_shared)
    None (0, 2)
  = ([], inr None)
  ∧ collect StereoPointsPacket_to_table
      (virtual_stereo_points StereoPointsBuilder_get_synched_paired_points
         ArrayStereoTriangulator_triangulate_synched_points
         example_camera_array table_shared)
      None
    = for_each ([(0, 1)] ++ [(1, 2)]) None
        (collect_pair StereoPointsPacket_to_table
           (virtual_stereo_points StereoPointsBuilder_get_synched_paired_points
              ArrayStereoTriangulator_triangulate_synched_points
              example_camera_array table_shared)).
Proof.
  apply (null_pair_skipped StereoPointsPacket_to_table
           (virtual_stereo_points StereoPointsBuilder_get_synched_paired_points
              ArrayStereoTriangulator_triangulate_synched_points
              example_camera_array table_shared)
           None (0, 2) [(0, 1)] [(1, 2)]).
  - reflexivity.
  - reflexivity.
Defined.

(** C7. On [table_disjoint], where no pair of cameras has a packet, the
    batched mode raises [KeyError] on the [point_id] column of its empty
    table: it returns no table and writes no file, while the per-bundle mode
    on the same input writes the empty table once and returns it. *)
Lemma batched_writes_nothing :
  (batched_mode example_camera_array example_path table_disjoint).2
    = inl (KeyError "point_id")
  ∧ count is_to_csv (batched_mode example_camera_array example_path table_disjoint).1
    = 0%nat
  ∧ (per_bundle_mode example_camera_array example_path table_disjoint).2
    = inr EmptyFrame
  ∧ List.filter is_to_csv
      (per_bundle_mode example_camera_array example_path table_disjoint).1
    = [EvToCsv ["recording"; "stereotriangulated_points.csv"]%string EmptyFrame].
Proof. by vm_compute. Qed.


(** C9 at [table_disjoint]. *)
Lemma empty_result_divergence_witness :
  (∃ trace,
     get_stereotriangulated_table_original
       StereoPointsBuilder_get_synched_paired_points
       ArrayStereoTriangulator_triangulate_synched_points
       StereoPointsPacket_to_table
       example_camera_array example_path table_disjoint
     = (trace ++ [EvToCsv (output_path example_path) EmptyFrame], inr EmptyFrame)
     ∧ count is_to_csv trace = 0%nat)
  ∧ (∃ trace,
       get_stereotriangulated_table
         StereoPointsBuilder_get_synched_paired_points
         ArrayStereoTriangulator_triangulate_synched_points
         StereoPointsPacket_to_table
         example_camera_array example_path table_disjoint
       = (trace, inl (KeyError "point_id"))
       ∧ count is_to_csv trace = 0%nat).
Proof.
  apply (empty_result_divergence
           StereoPointsBuilder_get_synched_paired_points
           ArrayStereoTriangulator_triangulate_synched_points
           StereoPointsPacket_to_table
           example_camera_array example_path table_disjoint).
  - intros s Hs. apply all_nullb_spec. revert s Hs. apply Forall_forall.
    vm_compute. repeat constructor.
  - apply all_nullb_spec. reflexivity.
Defined.

(** C10 fails as stated.  On [table_single_frame] the per-bundle mode
    builds one SyncPacket, for the synchronization index 0, and it is the
    SyncPacket that the batched mode builds: the frame packets of the two
    modes carry the same [frame_index] and the same [frame_time].  With the
    builder and the triangulator of the spec, the two runs are equal
    altogether, the output table included. *)
Lemma frame_metadata_equal :
  np_unique (sync_index <$> table_single_frame) = [0]
  ∧ bundle_sync_packet example_camera_array table_single_frame 0
    = virtual_sync_packet example_camera_array table_single_frame
  ∧ (λ frame, (fp_frame_index frame, fp_frame_time frame))
      <$> bundle_frame_packet
            (filter (λ r, sync_index r = 0) table_single_frame) 0
    = Some (0, 100)
  ∧ (λ frame, (fp_frame_index frame, fp_frame_time frame))
      <$> virtual_frame_packet (remap table_single_frame) 0
    = Some (0, 100)
  ∧ (λ frame, (fp_frame_index frame, fp_frame_time frame))
      <$> bundle_frame_packet
            (filter (λ r, sync_index r = 0) table_single_frame) 1
    = (λ frame, (fp_frame_index frame, fp_frame_time frame))
        <$> virtual_frame_packet (remap table_single_frame) 1
  ∧ per_bundle_mode example_camera_array example_path table_single_frame
    = batched_mode example_camera_array example_path table_single_frame.
Proof. by vm_compute. Qed.

(** C10 at [table_shared], port 0, synchronization index 1: the first row of
    the port at index 1 has [frame_index] 11 and [frame_time] 101, the first
    row of the port in the table has [frame_time] 100. *)
Lemma frame_metadata_differs_witness :
  ∃ frame_b frame_v : FramePacket,
    EvSyncPacket (bundle_sync_packet example_camera_array table_shared 1)
      ∈ (get_stereotriangulated_table_original
           StereoPointsBuilder_get_synched_paired_points
           ArrayStereoTriangulator_triangulate_synched_points
           StereoPointsPacket_to_table
           example_camera_array example_path table_shared).1
    ∧ EvSyncPacket (virtual_sync_packet example_camera_array table_shared)
        ∈ (get_stereotriangulated_table
             StereoPointsBuilder_get_synched_paired_points
             ArrayStereoTriangulator_triangulate_synched_points
             StereoPointsPacket_to_table
             example_camera_array example_path table_shared).1
    ∧ sp_frame_packets (bundle_sync_packet example_camera_array table_shared 1) !! 0
      = Some (Some frame_b)
    ∧ sp_frame_packets (virtual_sync_packet example_camera_array table_shared) !! 0
      = Some (Some frame_v)
    ∧ fp_frame_time frame_b = frame_time (detection 1 0 2)
    ∧ fp_frame_index frame_b = frame_index (detection 1 0 2)
    ∧ fp_frame_time frame_v = frame_time (detection 0 0 7)
    ∧ fp_frame_index frame_v = 0
    ∧ (fp_frame_index frame_b = fp_frame_index frame_v
       ↔ frame_index (detection 1 0 2) = 0)
    ∧ (fp_frame_time frame_b = fp_frame_time frame_v
       ↔ frame_time (detection 1 0 2) = frame_time (detection 0 0 7)).
Proof.
  apply (frame_metadata_differs
           StereoPointsBuilder_get_synched_paired_points
           ArrayStereoTriangulator_triangulate_synched_points
           StereoPointsPacket_to_table
           example_camera_array example_path table_shared 1 0
           (detection 1 0 2) (detection 0 0 7) [] [detection 1 0 2]).
  - vm_compute. repeat constructor.
  - reflexivity.
  - reflexivity.
Defined.

(** The two modes on [table_shared]: the same two rows, for the pair (0, 1),
    and none for the pairs with camera 2. *)
Example both_modes_on_table_shared :
  (per_bundle_mode example_camera_array example_path table_shared).2
  = inr (Frame [ {| out_sync_index := 0; out_port_a := 0; out_port_b := 1;
                    out_point_id := 7;
                    out_img_loc_a := (7, 0); out_img_loc_b := (17, 0);
                    out_xyz := (7, 17, 0) |};
                 {| out_sync_index := 1; out_port_a := 0; out_port_b := 1;
                    out_point_id := 2;
                    out_img_loc_a := (2, 1); out_img_loc_b := (12, 1);
                    out_xyz := (2, 12, 1) |} ])
  ∧ (batched_mode example_camera_array example_path table_shared).2
    = (per_bundle_mode example_camera_array example_path table_shared).2.
Proof. by vm_compute. Qed.


(** X5 at the multiplier 8 and the combined identifier 29. *)
Lemma encode_decode_inverse_witness :
  encode 8 (decode 8 29).1 (decode 8 29).2 = 29
  ∧ (0 < 8 → 0 ≤ (decode 8 29).2 < 8)
  ∧ (8 < 0 → 8 < (decode 8 29).2 ≤ 0).
Proof.
  apply (encode_decode_inverse 8 29); [discriminate|].
  unfold is_int64, int64_min, int64_max. lia.
Defined.

(** X6 at [table_shared]. *)
Lemma batched_rows_decoded_witness :
  ∃ (m : Z) (rows : list OutRow),
    point_id_multiplier_of table_shared = Some m ∧ 0 < m
    ∧ (∀ r, r ∈ table_shared → point_id r < m)
    ∧ rows = packets_met
               (virtual_stereo_points StereoPointsBuilder_get_synched_paired_points
                  ArrayStereoTriangulator_triangulate_synched_points
                  example_camera_array table_shared)
               ≫= from_option StereoPointsPacket_to_table []
    ∧ (get_stereotriangulated_table StereoPointsBuilder_get_synched_paired_points
         ArrayStereoTriangulator_triangulate_synched_points
         StereoPointsPacket_to_table
         example_camera_array example_path table_shared).2
      = inr (Frame (restore_row m <$> rows))
    ∧ Forall (λ r, 0 ≤ out_point_id r < m) (restore_row m <$> rows)
    ∧ Forall (λ r, is_int64 (out_point_id r) →
                   encode m (out_sync_index (restore_row m r))
                            (out_point_id (restore_row m r))
                   = out_point_id r) rows.
Proof.
  apply (batched_rows_decoded
           StereoPointsBuilder_get_synched_paired_points
           ArrayStereoTriangulator_triangulate_synched_points
           StereoPointsPacket_to_table
           example_camera_array example_path table_shared (detection 0 0 7)).
  - vm_compute. repeat constructor.
  - vm_compute. discriminate.
  - repeat constructor.
  - apply all_nullb_false. reflexivity.
Defined.

(** X7 at [table_shared], port 0. *)
Lemma virtual_point_ids_decode_witness :
  ∃ frame points,
    sp_frame_packets (virtual_sync_packet example_camera_array table_shared) !! 0
    = Some (Some frame)
    ∧ fp_points frame = Some points
    ∧ decode 8 <$> pp_point_id points
      = (λ r, (sync_index r, point_id r)) <$> filter (λ r, port r = 0) table_shared
    ∧ (NoDup ((λ r, (sync_index r, point_id r))
                <$> filter (λ r, port r = 0) table_shared) →
       NoDup (pp_point_id points)).
Proof.
  apply (virtual_point_ids_decode example_camera_array table_shared 8 0
           (detection 0 0 7)).
  - repeat constructor; vm_compute; discriminate.
  - split; [reflexivity|]. repeat constructor; vm_compute; discriminate.
  - reflexivity.
  - vm_compute. repeat constructor.
  - vm_compute. repeat constructor.
  - reflexivity.
Defined.

(** X8 at [table_shared], whose largest point identifier is 7. *)
Lemma multiplier_is_max_plus_one_witness :
  is_int64 8
  ∧ ((∀ r, r ∈ table_shared → point_id r < int64_max) →
     (∃ r, r ∈ table_shared ∧ point_id r = 8 - 1)
     ∧ ∀ r, r ∈ table_shared → point_id r < 8)
  ∧ ((∃ r, r ∈ table_shared ∧ point_id r = int64_max) →
     8 = int64_min ∧ ∀ r, r ∈ table_shared → 8 ≤ point_id r).
Proof.
  apply (multiplier_is_max_plus_one table_shared 8).
  - repeat constructor; vm_compute; discriminate.
  - reflexivity.
Defined.

(** X10 for a stream with the subscriber of the live view, and the
    subscriber of the recording. *)
Lemma subscribe_unsubscribe_round_trip_witness :
  LiveStream.subscribe ["FrameEmitter"%string] "RecordingThread"%string
  = ["FrameEmitter"%string] ++ ["RecordingThread"%string]
  ∧ LiveStream.subscribe
      (LiveStream.subscribe ["FrameEmitter"%string] "RecordingThread"%string)
      "RecordingThread"%string
    = LiveStream.subscribe ["FrameEmitter"%string] "RecordingThread"%string
  ∧ LiveStream.unsubscribe
      (LiveStream.subscribe ["FrameEmitter"%string] "RecordingThread"%string)
      "RecordingThread"%string
    = ["FrameEmitter"%string]
  ∧ LiveStream.unsubscribe ["FrameEmitter"%string] "RecordingThread"%string
    = ["FrameEmitter"%string].
Proof.
  apply (subscribe_unsubscribe_round_trip ["FrameEmitter"%string]
           "RecordingThread"%string).
  intros Hin%list_elem_of_singleton. discriminate Hin.
Defined.

(** X12 at [example_corners], for the corners 0 and 2, which have the
    same x. *)
Lemma connected_points_spec_witness :
  (0%nat, 2%nat)
    ∈ Charuco.get_connected_points_with example_x_set example_y_set example_corners
  ↔ (0 < 2)%nat
    ∧ ∃ ci cj, example_corners !! 0%nat = Some ci ∧ example_corners !! 2%nat = Some cj
               ∧ (ci.1 = cj.1 ∨ ci.2 = cj.2).
Proof.
  apply (connected_points_spec example_x_set example_y_set example_corners 0 2).
  - vm_compute. apply perm_swap.
  - vm_compute. apply Permutation_refl.
Defined.

(** X13 at [example_widget]: a countdown of five seconds, seen after two
    timeouts. *)
Lemma countdown_runs_to_recording_witness :
  ∃ w1 wk w2,
    RecordSingleCamera.toggle_start_stop example_widget = RecordSingleCamera.Done w1
    ∧ RecordSingleCamera.current_action w1 = RecordSingleCamera.COUNTDOWN
    ∧ RecordSingleCamera.countdown_timer_active w1 = true
    ∧ RecordSingleCamera.start_stop_button_enabled w1 = true
    ∧ RecordSingleCamera.start_stop_button_text w1
      = RecordSingleCamera.CountdownText (Z.of_nat 5)
    ∧ RecordSingleCamera.timeouts 2 w1 = RecordSingleCamera.Done wk
    ∧ RecordSingleCamera.current_action wk = RecordSingleCamera.COUNTDOWN
    ∧ RecordSingleCamera.current_countdown_value wk = Z.of_nat 5 - Z.of_nat 2
    ∧ RecordSingleCamera.countdown_timer_active wk = true
    ∧ RecordSingleCamera.timeouts 5 w1 = RecordSingleCamera.StartActualRecording w2
    ∧ RecordSingleCamera.countdown_timer_active w2 = false
    ∧ RecordSingleCamera.countdown_beeps w2
      = (RecordSingleCamera.countdown_beeps example_widget + Nat.min 4 3)%nat.
Proof.
  apply (countdown_runs_to_recording example_widget 4 2);
    [reflexivity|reflexivity|lia].
Defined.

(** X14 at [example_widget]: the countdown of five seconds is cancelled
    after two timeouts, and seven more timeouts are tried. *)
Lemma countdown_cancel_witness :
  ∃ w1 wk w2,
    RecordSingleCamera.toggle_start_stop example_widget = RecordSingleCamera.Done w1
    ∧ RecordSingleCamera.timeouts 2 w1 = RecordSingleCamera.Done wk
    ∧ RecordSingleCamera.toggle_start_stop wk = RecordSingleCamera.Done w2
    ∧ RecordSingleCamera.current_action w2 = RecordSingleCamera.START_RECORDING
    ∧ RecordSingleCamera.countdown_timer_active w2 = false
    ∧ RecordSingleCamera.start_stop_button_enabled w2 = true
    ∧ RecordSingleCamera.start_stop_button_text w2
      = RecordSingleCamera.ActionText RecordSingleCamera.START_RECORDING
    ∧ RecordSingleCamera.timeouts 7 w2 = RecordSingleCamera.Done w2
    ∧ (∀ w0, RecordSingleCamera.current_action w0 = RecordSingleCamera.SAVING
             ∨ RecordSingleCamera.current_action w0 = RecordSingleCamera.SELECT_CAMERA →
             RecordSingleCamera.toggle_start_stop w0 = RecordSingleCamera.Done w0)
    ∧ (∀ w0, RecordSingleCamera.start_stop_button_enabled
               (RecordSingleCamera.update_button_state w0) = false
             ↔ RecordSingleCamera.current_action w0 = RecordSingleCamera.SAVING
               ∨ RecordSingleCamera.current_action w0
                 = RecordSingleCamera.SELECT_CAMERA).
Proof.
  apply (countdown_cancel example_widget 4 2 7); [reflexivity|reflexivity|lia].
Defined.
